(** * Verification of [server/scripts/download_dataset.py]

    The script downloads the CTooth dataset through [kagglehub], walks the
    downloaded tree and copies the images whose names carry one of three
    keywords into [test/images] under fixed names.

    The development has three layers:
    - [Str]: the string operations the script uses ([str.lower], [in]);
    - [Fs]: the file system the script acts on, and the library calls it makes
      ([print], [os.makedirs], [shutil.copy2]) as computations that thread the
      world and may raise; how a copy ends once its files are open (it
      completes, or raises with the destination emptied and partly written)
      is left to the disk, a parameter of the development;
    - [Script]: the function [download_dataset] itself, and its properties. *)

From Stdlib Require Import Ascii String.
From stdpp Require Import gmap strings list fin_maps.

(** ** Strings *)

Module Str.

(** [str.lower] on one character.  File names are taken as byte strings
    (UTF-8); only the ASCII letters [A]..[Z] change.  The script searches the
    lowered name for ASCII needles only, and no character outside ASCII lowers
    to a string in which one of these needles could start or continue, so the
    byte-wise reading decides every test of the script as Python does. *)
Definition lower_ascii (c : ascii) : ascii :=
  let n := N_of_ascii c in
  if ((65 <=? n) && (n <=? 90))%N then ascii_of_N (n + 32) else c.

(** [s.lower()] *)
Fixpoint lower (s : string) : string :=
  match s with
  | EmptyString => EmptyString
  | String c s' => String (lower_ascii c) (lower s')
  end.

(** [hay.startswith(needle)] *)
Fixpoint startswith (needle hay : string) : bool :=
  match needle, hay with
  | EmptyString, _ => true
  | String _ _, EmptyString => false
  | String a n', String b h' => if Ascii.eqb a b then startswith n' h' else false
  end.

(** [needle in hay] on [str]: [needle] occurs at some offset of [hay]. *)
Fixpoint contains (needle hay : string) : bool :=
  startswith needle hay ||
  match hay with
  | EmptyString => false
  | String _ h' => contains needle h'
  end.

(** [any(p(x) for x in xs)] *)
Definition any {A} (p : A -> bool) (xs : list A) : bool := existsb p xs.

(** The relation [contains] decides. *)
Definition substring (needle hay : string) : Prop :=
  exists pre post, hay = pre +:+ needle +:+ post.

End Str.

Import Str.

(** ** The file system and the library calls *)

Module Fs.

(** A path is the list of its components, outermost first; [[]] is the root
    the paths are resolved from. *)
Abbreviation path := (list string).

(** [os.path.join], [os.path.dirname], [os.path.basename] *)
Definition join (p q : path) : path := p ++ q.
Definition dirname (p : path) : path := removelast p.
Definition basename (p : path) : string := default "" (last p).

(** How an f-string shows a path. *)
Definition show (p : path) : string := String.concat "/" p.

(** The exceptions the calls of the script can raise: the subclasses of
    [OSError] that [os] and [shutil] raise, [OSError] itself with its [errno]
    (28 for a full disk, 27 for a file too large, 5 for an I/O error), and
    whatever the download raises. *)
Inductive exn :=
  | FileExistsError
  | FileNotFoundError
  | NotADirectoryError
  | IsADirectoryError
  | SameFileError
  | PermissionError
  | OSError (errno : nat)
  | DownloadError (msg : string).

(** The world the script acts on: regular files with their bytes, directories,
    and the lines printed so far. *)
Record world := World {
  files : gmap path (list Byte.byte);
  dirs : gset path;
  stdout : list string
}.

Definition isdir (w : world) (p : path) : bool :=
  bool_decide (p = [] ∨ p ∈ dirs w).
Definition isfile (w : world) (p : path) : bool :=
  bool_decide (is_Some (files w !! p)).
Definition path_exists (w : world) (p : path) : bool :=
  isdir w p || isfile w p.

(** A computation threads the world and either raises or returns; what it did
    before raising stays done. *)
Definition M (A : Type) : Type := world → world * (exn + A).

#[global] Instance M_ret : MRet M := λ A a w, (w, inr a).
#[global] Instance M_bind : MBind M := λ A B f m w,
  match m w with
  | (w', inl e) => (w', inl e)
  | (w', inr a) => f a w'
  end.

Definition raise {A} (e : exn) : M A := λ w, (w, inl e).
Definition get_world : M world := λ w, (w, inr w).

(** [try: m except Exception as e: h(e)] *)
Definition try_except {A} (m : M A) (h : exn → M A) : M A := λ w,
  match m w with
  | (w', inl e) => h e w'
  | r => r
  end.

(** [for x in xs: body(x)] *)
Fixpoint for_ {A} (xs : list A) (body : A → M unit) : M unit :=
  match xs with
  | [] => mret tt
  | x :: xs' => body x;; for_ xs' body
  end.

(** [print(s)] *)
Definition print (s : string) : M unit := λ w,
  (World (files w) (dirs w) (stdout w ++ [s]), inr tt).

(** [os.mkdir(p)] *)
Definition mkdir (p : path) : M unit := λ w,
  if path_exists w p then (w, inl FileExistsError)
  else if isdir w (dirname p) then
    (World (files w) ({[p]} ∪ dirs w) (stdout w), inr tt)
  else if isfile w (dirname p) then (w, inl NotADirectoryError)
  else (w, inl FileNotFoundError).

(** The last step of [os.makedirs(name, exist_ok=True)]:
<<
    try:
        mkdir(name, mode)
    except OSError:
        if not exist_ok or not path.isdir(name):
            raise
>> *)
Definition mkdir_exist_ok (name : path) : M unit :=
  try_except (mkdir name) (λ e,
    w ← get_world;
    if isdir w name then mret tt else raise e).

(** [os.makedirs(name, exist_ok=True)], on the components of [name] last
    first, so that the recursion on the head is structural:
<<
    head, tail = path.split(name)
    if head and tail and not path.exists(head):
        try:
            makedirs(head, exist_ok=exist_ok)
        except FileExistsError:
            pass
    ... mkdir(name), see above
>> *)
Fixpoint makedirs_rev (rname : list string) : M unit :=
  match rname with
  | [] => mkdir_exist_ok []
  | tail :: rhead =>
      let head := rev rhead in
      w ← get_world;
      (if bool_decide (head ≠ []) && negb (path_exists w head) then
         try_except (makedirs_rev rhead) (λ e,
           match e with FileExistsError => mret tt | _ => raise e end)
       else mret tt);;
      mkdir_exist_ok (join head [tail])
  end.

Definition makedirs (name : path) : M unit := makedirs_rev (rev name).

(** How a copy ends once the source is open and the destination is a path
    that can be written: it completes; or the destination cannot be opened
    (no right to write it) and nothing is written; or, the destination opened
    and so emptied, the copy raises after [n] bytes (disk full, file too
    large, error of the device, or the metadata cannot be set after all the
    bytes). *)
Inductive copy_end :=
  | Completes
  | OpenFails (err : exn)
  | WriteFails (n : nat) (err : exn).

(** The disk the script writes to: what it does to the copy of [data] from
    [src] to [dst]. *)
Class Disk := copy_end_of : path → path → list Byte.byte → copy_end.

(** The disk on which every copy completes. *)
#[global] Instance reliable : Disk := λ _ _ _, Completes.

(** [shutil.copyfile(src, dst)]: the bytes of [src] replace what [dst] held.
    It refuses to copy a file onto itself, then opens [src] for reading and
    [dst] for writing, which empties [dst], and copies the bytes:
<<
    if _samefile(src, dst):
        raise SameFileError(...)
    with open(src, 'rb') as fsrc:
        with open(dst, 'wb') as fdst:
            copyfileobj(fsrc, fdst)
>> *)
Definition copyfile `{Disk} (src dst : path) : M unit := λ w,
  if bool_decide (src = dst) && path_exists w src then (w, inl SameFileError)
  else
    match files w !! src with
    | None => (w, inl (if isdir w src then IsADirectoryError else FileNotFoundError))
    | Some data =>
        if isdir w dst then (w, inl IsADirectoryError)
        else if isdir w (dirname dst) then
          match copy_end_of src dst data with
          | Completes =>
              (World (<[dst := data]> (files w)) (dirs w) (stdout w), inr tt)
          | OpenFails err => (w, inl err)
          | WriteFails n err =>
              (World (<[dst := take n data]> (files w)) (dirs w) (stdout w), inl err)
          end
        else if isfile w (dirname dst) then (w, inl NotADirectoryError)
        else (w, inl FileNotFoundError)
    end.

(** [shutil.copy2(src, dst)] (the metadata it also copies is not part of the
    world):
<<
    if os.path.isdir(dst):
        dst = os.path.join(dst, os.path.basename(src))
    copyfile(src, dst)
    copystat(src, dst)
>> *)
Definition copy2 `{Disk} (src dst : path) : M unit :=
  w ← get_world;
  let dst := if isdir w dst then join dst [basename src] else dst in
  copyfile src dst.


End Fs.

Import Fs.

(** ** The script *)

Module Script.

(** What the script gets from outside: its own location ([__file__]), the
    download ([kagglehub.dataset_download]) and the directory listing
    ([os.walk], as the sequence of triples it yields). *)
Record env := Env {
  script_file : path;
  dataset_download : string → exn + path;
  os_walk : path → list (path * list string * list string)
}.

Definition kagglehub_dataset_download (e : env) (handle : string) : M path :=
  match dataset_download e handle with
  | inl err => raise err
  | inr p => mret p
  end.

Definition exts : list string := [".jpg"; ".jpeg"; ".png"].
Definition terms : list string := ["xray"; "panoramic"; "intraoral"].

(** The [if]/[elif]/[else] that chooses [target_name]. *)
Definition target_name_of (file_lower : string) : string :=
  if contains "xray" file_lower then "xray.jpg"
  else if contains "panoramic" file_lower then "panoramic.jpg"
  else "intraoral.jpg".

(** [os.path.join(os.path.dirname(os.path.dirname(__file__)), 'test', 'images')] *)
Definition test_dir_of (e : env) : path :=
  join (dirname (dirname (script_file e))) ["test"; "images"].

(** The body of the inner loop, for one [file] of the directory [root]. *)
Definition visit `{Disk} (test_dir root : path) (file : string) : M unit :=
  let file_lower := lower file in
  if any (λ ext, contains ext file_lower) exts then
    if any (λ term, contains term file_lower) terms then
      let source_path := join root [file] in
      let target_name := target_name_of file_lower in
      let target_path := join test_dir [target_name] in
      copy2 source_path target_path;;
      print ("Copied " +:+ file +:+ " to " +:+ target_name)
    else mret tt
  else mret tt.

Definition download_dataset `{Disk} (e : env) : M unit :=
  print "Downloading CTooth dataset...";;
  path ← kagglehub_dataset_download e "weiweicui/ctooth-dataset";
  print ("Dataset downloaded to: " +:+ show path);;
  let test_dir := test_dir_of e in
  makedirs test_dir;;
  for_ (os_walk e path) (λ '(root, _, files),
    for_ files (λ file, visit test_dir root file)).

(** The world [w] with the bytes [data] in a file at [q]. *)
Definition with_file (q : path) (data : list Byte.byte) (w : world) : world :=
  World (<[q := data]> (files w)) (dirs w) (stdout w).

(** What the two tests of [visit] decide together. *)
Definition selected (file : string) : bool :=
  any (λ ext, contains ext (lower file)) exts &&
  any (λ term, contains term (lower file)) terms.

(** The line [visit] prints after a copy. *)
Definition progress_line (file : string) : string :=
  "Copied " +:+ file +:+ " to " +:+ target_name_of (lower file).

(** Where [copy2] writes for [file]: the slot, or inside it when the slot is a
    directory. *)
Definition dest (w : world) (test_dir : path) (file : string) : path :=
  let target_path := join test_dir [target_name_of (lower file)] in
  if isdir w target_path then join target_path [file] else target_path.

(** The files the two nested loops visit, in order, each with its [root]. *)
Definition walk_files (walk : list (path * list string * list string))
  : list (path * string) :=
  flat_map (λ '(root, _, files), map (pair root) files) walk.

(** The two loops as one, over [walk_files]. *)
Definition copy_all `{Disk} (test_dir : path) (items : list (path * string))
  : M unit :=
  for_ items (λ '(root, file), visit test_dir root file).

(** The files the loop gets through before [visit] raises (all of them if it
    never does). *)
Fixpoint performed `{Disk} (test_dir : path) (items : list (path * string))
    (w : world) : list (path * string) :=
  match items with
  | [] => []
  | (root, file) :: rest =>
      match visit test_dir root file w with
      | (w1, inr _) => (root, file) :: performed test_dir rest w1
      | (_, inl _) => []
      end
  end.

(** [writes_to w td p x]: visiting [x] copies it to the path [p]. *)
Definition writes_to (w : world) (test_dir p : path) (x : path * string) : bool :=
  selected x.2 && bool_decide (dest w test_dir x.2 = p).

(** No visited file lies in the target directory. *)
Definition outside (test_dir : path) (items : list (path * string)) : Prop :=
  Forall (λ x, ¬ test_dir `prefix_of` x.1 ++ [x.2]) items.

(** Two worlds with the same directories, and the same files on [S]. *)
Definition agree_on (S : path → Prop) (u v : world) : Prop :=
  dirs u = dirs v ∧ ∀ p, S p → files u !! p = files v !! p.

(** The header the script prints before it touches the file system. *)
Definition header (p : path) : list string :=
  ["Downloading CTooth dataset..."; "Dataset downloaded to: " +:+ show p].

End Script.

Import Script.

(** ** A run to try things on *)

(** The script sits in [repo/server/scripts]; the download lands in
    [cache/ctooth], whose walk yields three directories.  [readme.txt] and
    [myjpg.png.txt] carry no keyword; the other three files go to one slot each.
    The directory [repo/server/test] does not exist yet. *)
Definition ex_walk (p : path) : list (path * list string * list string) :=
  [(p, ["dir"], ["readme.txt"]);
   (p ++ ["dir"], ["a"], ["scan.intraoral.png"; "scan.panoramic.jpeg"]);
   (p ++ ["dir"; "a"], [], ["PANO_Xray_001.JPG"; "myjpg.png.txt"])].

Definition ex_env : env :=
  Env ["repo"; "server"; "scripts"; "download_dataset.py"]
      (λ _, inr ["cache"; "ctooth"])
      ex_walk.

Definition ex_dirs : gset path :=
  list_to_set [["repo"]; ["repo"; "server"]; ["repo"; "server"; "scripts"];
               ["cache"]; ["cache"; "ctooth"]; ["cache"; "ctooth"; "dir"];
               ["cache"; "ctooth"; "dir"; "a"]].

Definition ex_world : world :=
  World (list_to_map
           [(["cache"; "ctooth"; "readme.txt"], []);
            (["cache"; "ctooth"; "dir"; "scan.intraoral.png"], [Byte.x01]);
            (["cache"; "ctooth"; "dir"; "scan.panoramic.jpeg"], [Byte.x02]);
            (["cache"; "ctooth"; "dir"; "a"; "PANO_Xray_001.JPG"], [Byte.x03]);
            (["cache"; "ctooth"; "dir"; "a"; "myjpg.png.txt"], [Byte.x04])])
        ex_dirs [].

(** A download in which two files match the [xray] slot and nothing else
    matches; the second one found wins. *)
Definition two_env : env :=
  Env ["repo"; "server"; "scripts"; "download_dataset.py"]
      (λ _, inr ["cache"; "ctooth"])
      (λ p, [(p, [], ["a_xray.png"; "b_XRAY_panoramic.jpg"])]).

Definition two_world : world :=
  World (list_to_map
           [(["cache"; "ctooth"; "a_xray.png"], [Byte.x0a]);
            (["cache"; "ctooth"; "b_XRAY_panoramic.jpg"], [Byte.x0b]);
            (["repo"; "server"; "test"; "images"; "xray.jpg"], [Byte.xff])])
        (list_to_set [["repo"]; ["repo"; "server"]; ["repo"; "server"; "scripts"];
                      ["repo"; "server"; "test"]; ["repo"; "server"; "test"; "images"];
                      ["cache"]; ["cache"; "ctooth"]])
        [].

(** A download whose walk lists a dangling link between two images: [os.walk]
    puts it among the files, and [copy2] cannot open it. *)
Definition broken_env : env :=
  Env ["repo"; "server"; "scripts"; "download_dataset.py"]
      (λ _, inr ["cache"; "ctooth"])
      (λ p, [(p, [], ["a_xray.png"; "link_panoramic.jpg"; "c_intraoral.png"])]).

Definition broken_world : world :=
  World (list_to_map
           [(["cache"; "ctooth"; "a_xray.png"], [Byte.x0a]);
            (["cache"; "ctooth"; "c_intraoral.png"], [Byte.x0c])])
        ex_dirs [].

(** A download that fails, and a download with no image the script wants. *)
Definition failing_env : env :=
  Env ["repo"; "server"; "scripts"; "download_dataset.py"]
      (λ _, inl (DownloadError "404"))
      ex_walk.


(** [ex_world] after some output, with one more file, outside the download
    and outside the repository. *)
Definition noted_world : world :=
  World (<[["home"; "notes.txt"] := [Byte.x2a]]> (files ex_world))
        (dirs ex_world) ["earlier"].

(** The download of [ex_env] as a walk would also report it: the directory
    lists differ, the files the script does not want are gone, and a
    directory without files is listed. *)
Definition ex_env_other_walk : env :=
  Env ["repo"; "server"; "scripts"; "download_dataset.py"]
      (λ _, inr ["cache"; "ctooth"])
      (λ p, [(p ++ ["dir"], [], ["scan.intraoral.png"; "scan.panoramic.jpeg"]);
             (p ++ ["empty"], ["x"], []);
             (p ++ ["dir"; "a"], ["y"], ["PANO_Xray_001.JPG"])]).

(** [two_world] with a directory where the slot [xray.jpg] should be. *)
Definition dir_slot_world : world :=
  World (list_to_map
           [(["cache"; "ctooth"; "a_xray.png"], [Byte.x0a]);
            (["cache"; "ctooth"; "b_XRAY_panoramic.jpg"], [Byte.x0b])])
        ({[ ["repo"; "server"; "test"; "images"; "xray.jpg"] ]} ∪ dirs two_world)
        [].

(** A disk that fills up: the copy of the second file of [two_env] raises
    when the slot has been emptied and nothing written yet. *)
Definition full_disk : Disk := λ src _ _,
  if bool_decide (src = ["cache"; "ctooth"; "b_XRAY_panoramic.jpg"])
  then WriteFails 0 (OSError 28) else Completes.

(** A world in which [repo/server/test] is a regular file: [makedirs] raises. *)
Definition blocked_world : world :=
  World (<[["repo"; "server"; "test"] := []]> (files ex_world)) ex_dirs [].

(** ** Facts about the string operations *)

Section StrFacts.

Lemma startswith_spec (needle hay : string) :
  startswith needle hay = true ↔ ∃ post, hay = needle +:+ post.
Proof.
  revert hay. induction needle as [|a n IH]; intros hay; simpl.
  - split; [intros _; by exists hay | done].
  - destruct hay as [|b h].
    + split; [done | intros [post Hp]; discriminate].
    + destruct (Ascii.eqb a b) eqn:Hab.
      * apply Ascii.eqb_eq in Hab as ->. rewrite IH.
        split; intros [post Hp]; exists post; [by rewrite Hp | by injection Hp].
      * apply Ascii.eqb_neq in Hab.
        split; [done | intros [post Hp]; injection Hp; congruence].
Qed.

Lemma contains_intro (needle post pre : string) :
  contains needle (pre +:+ needle +:+ post) = true.
Proof.
  induction pre as [|c pre IH]; simpl.
  - destruct (needle +:+ post) eqn:E; simpl;
      (replace (startswith needle _) with true; [done|]);
      symmetry; apply startswith_spec; by exists post.
  - rewrite IH. apply orb_true_r.
Qed.

Lemma contains_spec (needle hay : string) :
  contains needle hay = true ↔ substring needle hay.
Proof.
  split.
  - induction hay as [|c h IH]; simpl; intros H.
    + rewrite orb_false_r in H. apply startswith_spec in H as [post ->].
      by exists "", post.
    + apply orb_true_iff in H as [H|H].
      * apply startswith_spec in H as [post ->]. by exists "", post.
      * destruct (IH H) as (pre & post & ->). by exists (String c pre), post.
  - intros (pre & post & ->). apply contains_intro.
Qed.

Lemma contains_false (needle hay : string) :
  contains needle hay = false ↔ ¬ substring needle hay.
Proof.
  rewrite <- contains_spec. destruct (contains needle hay); naive_solver.
Qed.

Lemma any_spec {A} (p : A → bool) (xs : list A) :
  any p xs = true ↔ ∃ x, x ∈ xs ∧ p x = true.
Proof.
  unfold any. rewrite existsb_exists.
  split; intros (x & Hx & Hp); exists x; split; try done;
    by apply list_elem_of_In.
Qed.

Lemma lower_ascii_idemp (c : ascii) : lower_ascii (lower_ascii c) = lower_ascii c.
Proof. by destruct c as [[] [] [] [] [] [] [] []]. Qed.

Lemma lower_idemp (s : string) : lower (lower s) = lower s.
Proof. induction s as [|c s IH]; simpl; [done | by rewrite lower_ascii_idemp, IH]. Qed.

End StrFacts.

(** ** Facts about the file system calls *)

Section FsFacts.

(** A run is the world it leaves, with its result. *)
Lemma run_pair {A} (x : world * (exn + A)) (r : exn + A) : x.2 = r → x = (x.1, r).
Proof. destruct x as [w' r']. simpl. by intros ->. Qed.

Lemma world_eta (w : world) : World (files w) (dirs w) (stdout w) = w.
Proof. by destruct w. Qed.

Lemma dirname_snoc (p : path) (x : string) : dirname (p ++ [x]) = p.
Proof. apply removelast_last. Qed.

Lemma basename_snoc (p : path) (x : string) : basename (p ++ [x]) = x.
Proof. unfold basename. by rewrite last_snoc. Qed.

Lemma isdir_true (w : world) (p : path) : isdir w p = true ↔ p = [] ∨ p ∈ dirs w.
Proof. unfold isdir. apply bool_decide_eq_true. Qed.

Lemma isdir_false (w : world) (p : path) : isdir w p = false ↔ p ≠ [] ∧ p ∉ dirs w.
Proof. unfold isdir. rewrite bool_decide_eq_false. naive_solver. Qed.

Lemma isfile_true (w : world) (p : path) : isfile w p = true ↔ is_Some (files w !! p).
Proof. unfold isfile. apply bool_decide_eq_true. Qed.

Lemma isfile_false (w : world) (p : path) : isfile w p = false ↔ files w !! p = None.
Proof. unfold isfile. rewrite bool_decide_eq_false. symmetry. apply eq_None_not_Some. Qed.

(** [mkdir] with [exist_ok], case by case. *)
Lemma mkdir_exist_ok_eq (p : path) (w : world) :
  mkdir_exist_ok p w =
    if isdir w p then (w, inr tt)
    else if isfile w p then (w, inl FileExistsError)
    else if isdir w (dirname p) then
      (World (files w) ({[p]} ∪ dirs w) (stdout w), inr tt)
    else if isfile w (dirname p) then (w, inl NotADirectoryError)
    else (w, inl FileNotFoundError).
Proof.
  unfold mkdir_exist_ok, try_except, mkdir, path_exists, mbind, M_bind, get_world,
    mret, M_ret, raise.
  destruct (isdir w p) eqn:Hd; simpl; [by rewrite Hd|].
  destruct (isfile w p) eqn:Hf; simpl; [by rewrite Hd|].
  destruct (isdir w (dirname p)); [done|].
  destruct (isfile w (dirname p)); simpl; by rewrite Hd.
Qed.

(** One unfolding of the recursion of [makedirs]. *)
Lemma makedirs_rev_cons (tail : string) (rhead : list string) (w : world) :
  makedirs_rev (tail :: rhead) w =
    if bool_decide (rev rhead ≠ []) && negb (path_exists w (rev rhead)) then
      match makedirs_rev rhead w with
      | (w1, inr _) | (w1, inl FileExistsError) =>
          mkdir_exist_ok (rev rhead ++ [tail]) w1
      | (w1, inl e) => (w1, inl e)
      end
    else mkdir_exist_ok (rev rhead ++ [tail]) w.
Proof.
  simpl. unfold mbind, M_bind, get_world, try_except, mret, M_ret, raise, join.
  destruct (bool_decide (rev rhead ≠ []) && negb (path_exists w (rev rhead))); [|done].
  destruct (makedirs_rev rhead w) as [w1 [[]|[]]]; done.
Qed.

(** The two ways [mkdir] with [exist_ok] can end: the world as it was, or
    with the one directory added. *)
Lemma mkdir_exist_ok_inv (p : path) (u u' : world) (r : exn + unit) :
  mkdir_exist_ok p u = (u', r) →
  (u' = u ∧ (if r is inr _ then isdir u p = true else isdir u p = false) ∧
     (r = inl FileExistsError → isfile u p = true)) ∨
  (u' = World (files u) ({[p]} ∪ dirs u) (stdout u) ∧ r = inr tt ∧
     isdir u p = false ∧ isfile u p = false ∧ isdir u (dirname p) = true).
Proof.
  rewrite mkdir_exist_ok_eq.
  destruct (isdir u p) eqn:Hd; [intros [= <- <-]; by left|].
  destruct (isfile u p) eqn:Hf; [intros [= <- <-]; by left|].
  destruct (isdir u (dirname p)) eqn:Hp; [intros [= <- <-]; by right|].
  destruct (isfile u (dirname p)); intros [= <- <-]; by left.
Qed.

Lemma mkdir_exist_ok_frame (p : path) (u u' : world) (r : exn + unit) :
  mkdir_exist_ok p u = (u', r) →
  files u' = files u ∧ stdout u' = stdout u ∧ dirs u ⊆ dirs u' ∧
  (∀ q, q ∈ dirs u' → q ∈ dirs u ∨ (q = p ∧ q ≠ [])) ∧
  (r = inr tt → isdir u' p = true).
Proof.
  intros H. apply mkdir_exist_ok_inv in H as [(-> & Hr & _)|(-> & -> & Hd & _)].
  - repeat split; [done | by left |]. by intros ->.
  - simpl. apply isdir_false in Hd as [Hne Hd].
    repeat split; [set_solver | set_solver |].
    intros _. apply isdir_true. set_solver.
Qed.

(** What [makedirs] leaves alone, and what it may add. *)
Lemma makedirs_rev_frame (rname : list string) (w w' : world) (r : exn + unit) :
  makedirs_rev rname w = (w', r) →
  files w' = files w ∧ stdout w' = stdout w ∧ dirs w ⊆ dirs w' ∧
  (∀ q, q ∈ dirs w' → q ∈ dirs w ∨ (q `prefix_of` rev rname ∧ q ≠ [])) ∧
  (r = inr tt → isdir w' (rev rname) = true) ∧
  (r = inl FileExistsError → isfile w (rev rname) = true).
Proof.
  revert w w' r. induction rname as [|tail rhead IH]; intros w w' r.
  - simpl. intros H. pose proof (mkdir_exist_ok_inv _ _ _ _ H) as Hi.
    apply mkdir_exist_ok_frame in H. naive_solver.
  - rewrite makedirs_rev_cons. simpl rev.
    destruct (bool_decide (rev rhead ≠ []) && negb (path_exists w (rev rhead))).
    + destruct (makedirs_rev rhead w) as [w1 r1] eqn:E1.
      destruct (IH _ _ _ E1) as (Hf & Ho & Hsub & Hnew & _ & _).
      assert (Hcont : mkdir_exist_ok (rev rhead ++ [tail]) w1 = (w', r) →
        files w' = files w ∧ stdout w' = stdout w ∧ dirs w ⊆ dirs w' ∧
        (∀ q, q ∈ dirs w' → q ∈ dirs w ∨ (q `prefix_of` rev rhead ++ [tail] ∧ q ≠ [])) ∧
        (r = inr tt → isdir w' (rev rhead ++ [tail]) = true) ∧
        (r = inl FileExistsError → isfile w (rev rhead ++ [tail]) = true)).
      { intros H. pose proof (mkdir_exist_ok_inv _ _ _ _ H) as Hi.
        apply mkdir_exist_ok_frame in H as (Hf' & Ho' & Hsub' & Hnew' & Hd').
        repeat split; [congruence | congruence | set_solver | | done |].
        - intros q Hq. destruct (Hnew' q Hq) as [Hq1|[-> ?]]; [|by right].
          destruct (Hnew q Hq1) as [?|[? ?]]; [by left|right].
          split; [by apply prefix_app_r | done].
        - intros ->. destruct Hi as [(_ & _ & Hi)|(_ & [=] & _)].
          unfold isfile in *. rewrite <- Hf. by apply Hi. }
      destruct r1 as [e|[]]; [|done].
      destruct e; try done; intros [= <- <-]; repeat split; try done.
      all: intros q Hq; destruct (Hnew q Hq) as [?|[? ?]]; [by left|right];
        split; [by apply prefix_app_r | done].
    + intros H. pose proof (mkdir_exist_ok_inv _ _ _ _ H) as Hi.
      apply mkdir_exist_ok_frame in H as (Hf' & Ho' & Hsub' & Hnew' & Hd').
      repeat split; try done.
      * intros q Hq. destruct (Hnew' q Hq) as [?|[-> ?]]; [by left | by right].
      * intros ->. destruct Hi as [(_ & _ & Hi)|(_ & [=] & _)]. by apply Hi.
Qed.

Lemma makedirs_frame (name : path) (w w' : world) (r : exn + unit) :
  makedirs name w = (w', r) →
  files w' = files w ∧ stdout w' = stdout w ∧ dirs w ⊆ dirs w' ∧
  (∀ q, q ∈ dirs w' → q ∈ dirs w ∨ (q `prefix_of` name ∧ q ≠ [])) ∧
  (r = inr tt → isdir w' name = true).
Proof.
  unfold makedirs. intros H. apply makedirs_rev_frame in H.
  rewrite rev_involutive in H. naive_solver.
Qed.

(** [makedirs] looks at the directories and at which prefixes of the name are
    regular files, and at nothing else. *)
Lemma makedirs_rev_rel (rname : list string) (u v u' : world) (r : exn + unit) :
  dirs u = dirs v →
  (∀ q, q `prefix_of` rev rname → isfile u q = isfile v q) →
  makedirs_rev rname u = (u', r) →
  makedirs_rev rname v = (World (files v) (dirs u') (stdout v), r).
Proof.
  assert (Hlast : ∀ (p : path) (a b a' : world) (r : exn + unit),
    dirs a = dirs b → isfile a p = isfile b p →
    isfile a (dirname p) = isfile b (dirname p) →
    mkdir_exist_ok p a = (a', r) →
    mkdir_exist_ok p b = (World (files b) (dirs a') (stdout b), r)).
  { intros p a b a' r0 Hd Hf1 Hf2. rewrite !mkdir_exist_ok_eq.
    unfold isdir. rewrite <- Hd, <- Hf1, <- Hf2.
    repeat case_match; intros [= <- <-]; simpl;
      rewrite ?Hd; try done; by rewrite world_eta. }
  revert u v u' r. induction rname as [|tail rhead IH]; intros u v u' r Hd Hf.
  - simpl. apply Hlast; [done | by apply Hf | by apply Hf].
  - rewrite !makedirs_rev_cons. simpl rev in Hf.
    assert (Hhead : ∀ q, q `prefix_of` rev rhead → isfile u q = isfile v q).
    { intros q Hq. apply Hf. by apply prefix_app_r. }
    assert (Hname : isfile u (rev rhead ++ [tail]) = isfile v (rev rhead ++ [tail])).
    { by apply Hf. }
    assert (Hpar : isfile u (dirname (rev rhead ++ [tail]))
                   = isfile v (dirname (rev rhead ++ [tail]))).
    { rewrite dirname_snoc. by apply Hhead. }
    unfold path_exists, isdir. rewrite <- Hd, <- (Hhead (rev rhead)) by done.
    destruct (bool_decide (rev rhead ≠ []) && _).
    + destruct (makedirs_rev rhead u) as [u1 r1] eqn:E1.
      rewrite (IH _ _ _ _ Hd Hhead E1).
      apply makedirs_rev_frame in E1 as (Hf1 & _).
      assert (Hcont : mkdir_exist_ok (rev rhead ++ [tail]) u1 = (u', r) →
        mkdir_exist_ok (rev rhead ++ [tail]) (World (files v) (dirs u1) (stdout v))
        = (World (files v) (dirs u') (stdout v), r)).
      { intros H. eapply (Hlast _ u1 (World (files v) (dirs u1) (stdout v))) in H;
          [done | done | |]; unfold isfile in *; simpl; by rewrite Hf1. }
      destruct r1 as [e|[]]; [|done].
      destruct e; try done; by intros [= <- <-].
    + by apply Hlast.
Qed.

Lemma makedirs_rel (name : path) (u v u' : world) (r : exn + unit) :
  dirs u = dirs v →
  (∀ q, q `prefix_of` name → isfile u q = isfile v q) →
  makedirs name u = (u', r) →
  makedirs name v = (World (files v) (dirs u') (stdout v), r).
Proof.
  unfold makedirs. intros Hd Hf. apply makedirs_rev_rel; [done|].
  by rewrite rev_involutive.
Qed.





End FsFacts.

(** ** Facts about the script *)

Section ScriptFacts.

Context {D : Disk}.

Lemma selected_spec (file : string) :
  selected file = true ↔
  (∃ ext, ext ∈ exts ∧ substring ext (lower file)) ∧
  (∃ term, term ∈ terms ∧ substring term (lower file)).
Proof.
  unfold selected. rewrite andb_true_iff, !any_spec.
  by setoid_rewrite contains_spec.
Qed.

(** The ways [copyfile] can end: nothing opened and the world as it was; or
    the source read and the destination written, with all the bytes when it
    returns and with the first of them when it raises. *)
Lemma copyfile_inv (src dst : path) (w w' : world) (r : exn + unit) :
  copyfile src dst w = (w', r) →
  (w' = w ∧ ∃ e, r = inl e) ∨
  (∃ data, files w !! src = Some data ∧ src ≠ dst ∧
     isdir w dst = false ∧ isdir w (dirname dst) = true ∧
     ((r = inr tt ∧ w' = with_file dst data w) ∨
      (∃ n e, r = inl e ∧ w' = with_file dst (take n data) w))).
Proof.
  unfold copyfile, path_exists.
  destruct (bool_decide (src = dst) && _) eqn:Hsd; [intros [= <- <-]; eauto|].
  destruct (files w !! src) as [data|] eqn:Hs; [|intros [= <- <-]; eauto].
  destruct (isdir w dst) eqn:Hd; [intros [= <- <-]; eauto|].
  destruct (isdir w (dirname dst)) eqn:Hp.
  - assert (Hne : src ≠ dst).
    { intros ->. rewrite bool_decide_eq_true_2, Hd in Hsd by done. simpl in Hsd.
      apply isfile_false in Hsd. congruence. }
    destruct (copy_end_of src dst data) as [|err|n err]; intros [= <- <-].
    + right. exists data. repeat split; try done. by left.
    + left. eauto.
    + right. exists data. repeat split; try done. right. by exists n, err.
  - destruct (isfile w (dirname dst)); intros [= <- <-]; eauto.
Qed.

(** [visit], with its tests and the choice of [copy2] spelled out. *)
Lemma visit_eq (td root : path) (file : string) (w : world) :
  visit td root file w =
    if selected file then
      (copyfile (root ++ [file]) (dest w td file);; print (progress_line file)) w
    else (w, inr tt).
Proof.
  unfold visit, selected, copy2, dest, progress_line, join.
  destruct (any _ exts); [|done].
  destruct (any _ terms); [|done]. simpl.
  unfold mbind, M_bind, get_world. by rewrite basename_snoc.
Qed.

Lemma visit_selected (td root : path) (file : string) (w : world) :
  selected file = true →
  visit td root file w =
    (copy2 (join root [file]) (join td [target_name_of (lower file)]);;
     print ("Copied " +:+ file +:+ " to " +:+ target_name_of (lower file))) w.
Proof.
  unfold visit, selected. intros [-> ->]%andb_true_iff. done.
Qed.

Lemma visit_skipped (td root : path) (file : string) (w : world) :
  selected file = false → visit td root file w = (w, inr tt).
Proof. intros Hs. by rewrite visit_eq, Hs. Qed.

(** The two ways [visit] can return: the file skipped, or copied and the
    line printed. *)
Lemma visit_ok_inv (td root : path) (file : string) (w w' : world) :
  visit td root file w = (w', inr tt) →
  (selected file = false ∧ w' = w) ∨
  (selected file = true ∧ ∃ data,
     files w !! (root ++ [file]) = Some data ∧
     root ++ [file] ≠ dest w td file ∧
     w' = World (<[dest w td file := data]> (files w)) (dirs w)
                (stdout w ++ [progress_line file])).
Proof.
  rewrite visit_eq. destruct (selected file); [|intros [= <-]; by left].
  intros Hv. right. split; [done|]. unfold mbind, M_bind in Hv.
  destruct (copyfile (root ++ [file]) (dest w td file) w) as [w1 r1] eqn:E.
  apply copyfile_inv in E
    as [(-> & e & ->)|(data & Hs & Hne & _ & _ & [[-> ->]|(n & e & -> & ->)])];
    try done.
  unfold print in Hv. simpl in Hv. injection Hv as <-. by exists data.
Qed.

(** The two ways [visit] can raise: in [copy2], before anything is written,
    or with the destination emptied and some of the bytes in it.  Nothing is
    printed. *)
Lemma visit_fail_inv (td root : path) (file : string) (w w' : world) (e : exn) :
  visit td root file w = (w', inl e) →
  selected file = true ∧
  (w' = w ∨
   ∃ data n, files w !! (root ++ [file]) = Some data ∧
             root ++ [file] ≠ dest w td file ∧
             w' = with_file (dest w td file) (take n data) w).
Proof.
  rewrite visit_eq. destruct (selected file); [|done].
  intros Hv. split; [done|]. unfold mbind, M_bind in Hv.
  destruct (copyfile (root ++ [file]) (dest w td file) w) as [w1 r1] eqn:E.
  apply copyfile_inv in E
    as [(-> & e1 & ->)|(data & Hs & Hne & _ & _ & [[-> ->]|(n & e1 & -> & ->)])].
  - injection Hv as <- _. by left.
  - done.
  - injection Hv as <- _. right. by exists data, n.
Qed.

(** What [visit] leaves alone, however it ends. *)
Lemma visit_frame (td root : path) (file : string) (w w' : world) (r : exn + unit) :
  visit td root file w = (w', r) →
  dirs w' = dirs w ∧
  (∀ q, q ≠ dest w td file → files w' !! q = files w !! q) ∧
  (∀ q, is_Some (files w !! q) → is_Some (files w' !! q)) ∧
  (∀ e, r = inl e → stdout w' = stdout w).
Proof.
  intros Hv. destruct r as [e|[]].
  - apply visit_fail_inv in Hv as [_ [->|(data & n & _ & _ & ->)]]; [done|].
    repeat split; try done.
    + intros q Hq. simpl. by apply lookup_insert_ne.
    + intros q Hq. simpl. apply lookup_insert_is_Some.
      destruct (decide (dest w td file = q)); [by left | by right].
  - apply visit_ok_inv in Hv as [[_ ->]|(_ & data & _ & _ & ->)]; [done|].
    repeat split; try done.
    + intros q Hq. simpl. by apply lookup_insert_ne.
    + intros q Hq. simpl. apply lookup_insert_is_Some.
      destruct (decide (dest w td file = q)); [by left | by right].
Qed.

Lemma visit_dirs (td root : path) (file : string) (w w' : world) (r : exn + unit) :
  visit td root file w = (w', r) → dirs w' = dirs w.
Proof. intros Hv. by apply visit_frame in Hv as [? _]. Qed.

Lemma dest_dirs (u v : world) (td : path) (file : string) :
  dirs u = dirs v → dest u td file = dest v td file.
Proof. unfold dest, isdir. by intros ->. Qed.

Lemma dest_prefix (w : world) (td : path) (file : string) :
  td `prefix_of` dest w td file.
Proof.
  unfold dest, join. destruct (isdir w _).
  - rewrite <- app_assoc. by apply prefix_app_r.
  - by apply prefix_app_r.
Qed.

(** The writes of [visit] land on one of the three slots, or inside a slot
    that is a directory. *)
Lemma dest_cases (w : world) (td : path) (file : string) :
  ∃ name, name ∈ ["xray.jpg"; "panoramic.jpg"; "intraoral.jpg"] ∧
    ((dest w td file = td ++ [name] ∧ isdir w (td ++ [name]) = false) ∨
     (dest w td file = td ++ [name; file] ∧ isdir w (td ++ [name]) = true)).
Proof.
  exists (target_name_of (lower file)). split.
  - unfold target_name_of. repeat case_match; set_solver.
  - unfold dest, join.
    destruct (isdir w (td ++ [target_name_of (lower file)])); [right|left]; [|done].
    by rewrite <- app_assoc.
Qed.

(** The target directory is not one of its own slots' paths. *)
Lemma dest_slot (w : world) (td : path) (file name : string) :
  isdir w (td ++ [name]) = false →
  dest w td file = td ++ [name] ↔ target_name_of (lower file) = name.
Proof.
  intros Hd. unfold dest, join.
  destruct (isdir w (td ++ [target_name_of (lower file)])) eqn:E.
  - split.
    + rewrite <- app_assoc. intros Hx%app_inv_head. discriminate.
    + intros <-. congruence.
  - split; [by intros [=]%app_inv_head | by intros ->].
Qed.

Lemma dest_parent_isdir (w : world) (td : path) (file : string) :
  isdir w td = true → isdir w (dirname (dest w td file)) = true.
Proof.
  intros Htd. unfold dest, join.
  destruct (isdir w (td ++ [target_name_of (lower file)])) eqn:E;
    by rewrite dirname_snoc.
Qed.

(** *** The loops *)

Lemma for_app {A} (l1 l2 : list A) (f : A → M unit) (w : world) :
  for_ (l1 ++ l2) f w = (for_ l1 f;; for_ l2 f) w.
Proof.
  revert w. induction l1 as [|x l1 IH]; intros w; simpl.
  - done.
  - unfold mbind, M_bind in *. destruct (f x w) as [w1 [e|[]]]; [done|]. apply IH.
Qed.

Lemma for_map {A B} (g : A → B) (l : list A) (f : B → M unit) (w : world) :
  for_ (map g l) f w = for_ l (λ x, f (g x)) w.
Proof.
  revert w. induction l as [|x l IH]; intros w; simpl; [done|].
  unfold mbind, M_bind. destruct (f (g x) w) as [w1 [e|[]]]; [done|]. apply IH.
Qed.

Lemma walk_flatten (td : path) (walk : list (path * list string * list string))
    (w : world) :
  for_ walk (λ '(root, _, files), for_ files (λ file, visit td root file)) w
  = copy_all td (walk_files walk) w.
Proof.
  unfold copy_all. revert w.
  induction walk as [|[[root ds] fs] walk IH]; intros w; [done|].
  simpl. rewrite for_app. unfold mbind, M_bind. rewrite for_map.
  destruct (for_ fs _ w) as [w1 [e|[]]]; [done|]. apply IH.
Qed.

Lemma copy_all_cons (td root : path) (file : string) (l : list (path * string))
    (w : world) :
  copy_all td ((root, file) :: l) w =
    match visit td root file w with
    | (w1, inl e) => (w1, inl e)
    | (w1, inr _) => copy_all td l w1
    end.
Proof. done. Qed.

Lemma copy_all_app (td : path) (l1 l2 : list (path * string)) (w w1 : world) :
  copy_all td l1 w = (w1, inr tt) → copy_all td (l1 ++ l2) w = copy_all td l2 w1.
Proof.
  unfold copy_all. intros Hl. rewrite for_app. unfold mbind, M_bind. by rewrite Hl.
Qed.

(** The script, with the nested loops flattened and the monad unfolded. *)
Lemma download_dataset_eq (e : env) (w : world) :
  download_dataset e w =
    match dataset_download e "weiweicui/ctooth-dataset" with
    | inl err =>
        (World (files w) (dirs w) (stdout w ++ ["Downloading CTooth dataset..."]),
         inl err)
    | inr p =>
        match makedirs (test_dir_of e)
                (World (files w) (dirs w) (stdout w ++ header p)) with
        | (w2, inl err) => (w2, inl err)
        | (w2, inr _) => copy_all (test_dir_of e) (walk_files (os_walk e p)) w2
        end
    end.
Proof.
  unfold download_dataset, kagglehub_dataset_download, header.
  unfold mbind, M_bind, print, raise, mret, M_ret. simpl.
  destruct (dataset_download e _) as [err|p]; [done|]. simpl.
  rewrite <- app_assoc. simpl.
  destruct (makedirs _ _) as [w2 [err|[]]]; [done|].
  apply walk_flatten.
Qed.

Lemma copy_all_dirs (td : path) (l : list (path * string)) (w w' : world)
    (r : exn + unit) :
  copy_all td l w = (w', r) → dirs w' = dirs w.
Proof.
  revert w. induction l as [|[root file] l IH]; intros w.
  - by intros [= <- <-].
  - rewrite copy_all_cons. destruct (visit td root file w) as [w1 r1] eqn:E.
    apply visit_dirs in E. destruct r1 as [e|[]].
    + by intros [= <- <-].
    + intros Hl. apply IH in Hl. congruence.
Qed.

Lemma performed_elem_of (td : path) (l : list (path * string)) (w : world)
    (x : path * string) :
  x ∈ performed td l w → x ∈ l.
Proof.
  revert w. induction l as [|[root file] l IH]; intros w; simpl; [done|].
  destruct (visit td root file w) as [w1 [e|[]]]; [by intros ?%elem_of_nil|].
  intros [->|Hx]%elem_of_cons; [left | right; by eapply IH].
Qed.


(** When the loop raises, it is at the file after those it got through: the
    visit of that file raises, in the world these left. *)
Lemma copy_all_fail (td : path) (l : list (path * string)) (w w' : world) (e : exn) :
  copy_all td l w = (w', inl e) →
  ∃ root file rest w1,
    l = performed td l w ++ (root, file) :: rest ∧
    copy_all td (performed td l w) w = (w1, inr tt) ∧
    visit td root file w1 = (w', inl e).
Proof.
  revert w. induction l as [|[root file] l IH]; intros w; [done|].
  rewrite copy_all_cons. simpl.
  destruct (visit td root file w) as [w1 [e1|[]]] eqn:E.
  - intros [= <- <-]. by exists root, file, l, w.
  - intros Hl. destruct (IH _ Hl) as (root' & file' & rest & w2 & Hl' & Hp & Hv).
    exists root', file', rest, w2. rewrite copy_all_cons, E. split; [|done].
    simpl. by f_equal.
Qed.

(** The lines the loop prints: one for each selected file it got through. *)
Lemma copy_all_stdout (td : path) (l : list (path * string)) (w w' : world)
    (r : exn + unit) :
  copy_all td l w = (w', r) →
  stdout w' = stdout w ++
    map (λ x, progress_line x.2) (List.filter (λ x, selected x.2) (performed td l w)).
Proof.
  revert w. induction l as [|[root file] l IH]; intros w.
  - intros [= <- <-]. simpl. by rewrite app_nil_r.
  - rewrite copy_all_cons. simpl.
    destruct (visit td root file w) as [w1 [e|[]]] eqn:E.
    + intros [= <- <-]. simpl. rewrite app_nil_r.
      apply visit_frame in E as (_ & _ & _ & Ho). by apply (Ho e).
    + apply visit_ok_inv in E as [[Hs ->]|(Hs & d & _ & _ & ->)].
      * intros Hl. simpl. rewrite Hs. by apply IH.
      * intros Hl. simpl. rewrite Hs. apply IH in Hl. simpl in *.
        by rewrite Hl, <- app_assoc.
Qed.

Lemma outside_elem_of (td : path) (l : list (path * string)) (root : path)
    (file : string) :
  outside td l → (root, file) ∈ l → ¬ td `prefix_of` root ++ [file].
Proof. intros Hout Hin. by apply (proj1 (Forall_forall _ _) Hout (root, file)). Qed.

(** What the loop does not copy to, it leaves alone. *)
Lemma copy_all_other (td : path) (l : list (path * string)) (w w' : world)
    (r : exn + unit) (q : path) :
  (∀ file, dest w td file ≠ q) →
  copy_all td l w = (w', r) →
  files w' !! q = files w !! q.
Proof.
  revert w. induction l as [|[root file] l IH]; intros w Hq.
  - by intros [= <- <-].
  - rewrite copy_all_cons.
    destruct (visit td root file w) as [w1 r1] eqn:E.
    apply visit_frame in E as (Hd & Hf & _).
    assert (Hq1 : files w1 !! q = files w !! q).
    { apply Hf. intros Heq. by apply (Hq file). }
    destruct r1 as [e|[]]; [intros [= <- <-]; done|].
    intros Hl. apply IH in Hl; [congruence|].
    intros f. by rewrite (dest_dirs _ w).
Qed.

Lemma copy_all_outside (td : path) (l : list (path * string)) (w w' : world)
    (r : exn + unit) (q : path) :
  ¬ td `prefix_of` q → copy_all td l w = (w', r) → files w' !! q = files w !! q.
Proof.
  intros Hq. apply copy_all_other. intros file <-. apply Hq, dest_prefix.
Qed.

(** The loop removes no file. *)
Lemma copy_all_keeps (td : path) (l : list (path * string)) (w w' : world)
    (r : exn + unit) (q : path) :
  copy_all td l w = (w', r) → is_Some (files w !! q) → is_Some (files w' !! q).
Proof.
  revert w. induction l as [|[root file] l IH]; intros w.
  - by intros [= <- <-].
  - rewrite copy_all_cons. destruct (visit td root file w) as [w1 r1] eqn:E.
    apply visit_frame in E as (_ & _ & Hk & _).
    destruct r1 as [e|[]]; [intros [= <- <-]; apply Hk|].
    intros Hl Hq. apply (IH _ Hl). by apply Hk.
Qed.

(** Last write wins: after a loop that returns, a path holds the bytes of
    the last file copied to it, and what it held before if there was none. *)
Lemma copy_all_files (td : path) (l : list (path * string)) (w w' : world)
    (p : path) :
  outside td l →
  copy_all td l w = (w', inr tt) →
  files w' !! p =
    match last (List.filter (writes_to w td p) l) with
    | Some x => files w !! (x.1 ++ [x.2])
    | None => files w !! p
    end.
Proof.
  revert w. induction l as [|[root file] l IH]; intros w Hout.
  - by intros [= <-].
  - assert (Hout' : outside td l) by (by apply Forall_cons in Hout as [_ ?]).
    rewrite copy_all_cons. simpl.
    destruct (visit td root file w) as [w1 [e|[]]] eqn:E; [done|].
    apply visit_ok_inv in E as [[Hs ->]|(Hs & d & Hsrc & _ & ->)].
    + intros Hl. unfold writes_to at 1. simpl. rewrite Hs. simpl.
      by apply IH.
    + intros Hl. apply (IH _ Hout') in Hl. rewrite Hl. clear Hl.
      set (w1 := World _ _ _).
      assert (Hw : ∀ x, writes_to w1 td p x = writes_to w td p x).
      { intros x. unfold writes_to. by rewrite (dest_dirs w1 w). }
      rewrite (filter_ext _ _ Hw).
      destruct (last (List.filter (writes_to w td p) l)) as [[r0 f0]|] eqn:El.
      * assert (Hin : (r0, f0) ∈ l).
        { apply last_Some_elem_of in El.
          apply list_elem_of_In, filter_In in El as [El _].
          by apply list_elem_of_In in El. }
        replace (last _) with (Some (r0, f0)).
        2:{ destruct (writes_to w td p (root, file)); [|done].
            by rewrite last_cons, El. }
        simpl. apply lookup_insert_ne. intros Heq.
        apply (outside_elem_of _ _ _ _ Hout' Hin). rewrite <- Heq.
        apply dest_prefix.
      * unfold writes_to at 1. simpl. rewrite Hs. simpl.
        case_bool_decide as Hp.
        -- rewrite last_cons, El. simpl. subst p. by rewrite lookup_insert_eq.
        -- rewrite El. by apply lookup_insert_ne.
Qed.

(** A loop that returns has opened every selected file. *)
Lemma copy_all_sources (td : path) (l : list (path * string)) (w w' : world)
    (root : path) (file : string) :
  outside td l → copy_all td l w = (w', inr tt) →
  (root, file) ∈ l → selected file = true →
  is_Some (files w !! (root ++ [file])).
Proof.
  revert w. induction l as [|[r0 f0] l IH]; intros w Hout Hl Hin Hs.
  - by apply elem_of_nil in Hin.
  - apply Forall_cons in Hout as [Hx Hout]. rewrite copy_all_cons in Hl.
    destruct (visit td r0 f0 w) as [w1 [e|[]]] eqn:E; [done|].
    apply elem_of_cons in Hin as [[= -> ->]|Hin].
    + apply visit_ok_inv in E as [[? _]|(_ & d & Hsrc & _)]; [congruence|].
      by exists d.
    + pose proof (IH _ Hout Hl Hin Hs) as Hsome.
      assert (Hc : copy_all td [(r0, f0)] w = (w1, inr tt)).
      { by rewrite copy_all_cons, E. }
      rewrite <- (copy_all_outside _ _ _ _ _ (root ++ [file])) with (2 := Hc); [done|].
      by apply (outside_elem_of td l).
Qed.

(** The loop skips what is not selected. *)
Lemma copy_all_filter (td : path) (l : list (path * string)) (w : world) :
  copy_all td l w = copy_all td (List.filter (λ x, selected x.2) l) w.
Proof.
  revert w. induction l as [|[root file] l IH]; intros w; [done|].
  simpl List.filter. destruct (selected file) eqn:Hs.
  - rewrite !copy_all_cons. destruct (visit td root file w) as [w1 [e|[]]]; [done|].
    apply IH.
  - by rewrite copy_all_cons, visit_skipped.
Qed.


(** Two visits of a file, from worlds with the same directories that agree
    on the file, end alike and write alike. *)
Lemma visit_rel (S : path → Prop) (td root : path) (file : string)
    (u v u' : world) (r : exn + unit) :
  agree_on S u v →
  isdir u td = true →
  (selected file = true → S (root ++ [file])) →
  visit td root file u = (u', r) →
  ∃ v', visit td root file v = (v', r) ∧ agree_on S u' v'.
Proof.
  intros [Hd Hf] Htd HS.
  assert (Hiv : ∀ x, isdir v x = isdir u x).
  { intros x. unfold isdir. by rewrite Hd. }
  pose proof (dest_parent_isdir u td file Htd) as Hpar.
  rewrite !visit_eq. destruct (selected file) eqn:Hs.
  2:{ intros [= <- <-]. exists v. by split. }
  specialize (HS eq_refl). rewrite <- (dest_dirs u v) by done.
  assert (Hput : ∀ d o o',
    agree_on S (World (<[dest u td file := d]> (files u)) (dirs u) o)
               (World (<[dest u td file := d]> (files v)) (dirs v) o')).
  { intros d o o'. split; [done|]. intros q Hq. simpl.
    destruct (decide (dest u td file = q)) as [->|Hne].
    - by rewrite !lookup_insert_eq.
    - rewrite !lookup_insert_ne by done. by apply Hf. }
  unfold mbind, M_bind, copyfile, path_exists, isfile, print.
  rewrite !Hiv, Hpar, <- (Hf _ HS).
  destruct (bool_decide (root ++ [file] = dest u td file) && _).
  { intros [= <- <-]. exists v. by split. }
  destruct (files u !! (root ++ [file])) as [data|].
  2:{ intros [= <- <-]. exists v. by split. }
  destruct (isdir u (dest u td file)).
  { intros [= <- <-]. exists v. by split. }
  destruct (copy_end_of _ _ data) as [|err|n err]; simpl; intros [= <- <-].
  - eexists. split; [done|]. apply Hput.
  - exists v. by split.
  - eexists. split; [done|]. apply Hput.
Qed.

(** Two runs of the loop from worlds that agree on the files it reads end
    alike. *)
Lemma copy_all_rel (S : path → Prop) (td : path) (l : list (path * string))
    (u v u' : world) (r : exn + unit) :
  agree_on S u v →
  isdir u td = true →
  (∀ root file, (root, file) ∈ l → S (root ++ [file])) →
  copy_all td l u = (u', r) →
  ∃ v', copy_all td l v = (v', r) ∧ agree_on S u' v' ∧
        performed td l v = performed td l u.
Proof.
  revert u v. induction l as [|[root file] l IH]; intros u v Hag Htd HS.
  - intros [= <- <-]. by exists v.
  - rewrite !copy_all_cons. simpl.
    destruct (visit td root file u) as [u1 r1] eqn:E.
    pose proof (visit_dirs _ _ _ _ _ _ E) as Hd1.
    destruct (visit_rel S _ _ _ _ v _ _ Hag Htd (λ _, HS root file ltac:(by left)) E)
      as (v1 & Ev & Hag1).
    rewrite Ev. destruct r1 as [e|[]].
    + intros [= <- <-]. by exists v1.
    + intros Hl. apply (IH _ v1) in Hl as (v' & Hv & Hag' & Hp); [|done| |].
      * exists v'. by rewrite Hp.
      * unfold isdir in *. by rewrite Hd1.
      * intros r0 f0 H0. apply HS. by right.
Qed.


Lemma not_prefix_snoc (td : path) (k : list string) (x : string) :
  ¬ td ++ x :: k `prefix_of` td.
Proof.
  intros Hp%prefix_length. rewrite length_app in Hp. simpl in Hp. lia.
Qed.


Lemma writes_to_slot (w : world) (td : path) (name : string) (x : path * string) :
  isdir w (td ++ [name]) = false →
  writes_to w td (td ++ [name]) x
  = selected x.2 && String.eqb (target_name_of (lower x.2)) name.
Proof.
  intros Hd. unfold writes_to. f_equal.
  pose proof (dest_slot w td x.2 name Hd) as Hs.
  destruct (String.eqb _ name) eqn:E.
  - apply String.eqb_eq in E. apply bool_decide_eq_true. by apply Hs.
  - apply String.eqb_neq in E. apply bool_decide_eq_false. by rewrite Hs.
Qed.


End ScriptFacts.

(** ** The claims *)

Section Claims.

Context {D : Disk}.


(** C2: the slot is chosen by keyword priority on the lowercased name: [xray]
    first, then [panoramic], else [intraoral] (and then, for a name that
    passed the keyword test, [intraoral] does occur in it).  A name with both
    [xray] and [panoramic] goes to [xray.jpg].  The name chosen is the one
    [visit] copies to. *)
Theorem C2_slot_by_keyword_priority (file_lower : string) :
  (substring "xray" file_lower → target_name_of file_lower = "xray.jpg") ∧
  (¬ substring "xray" file_lower → substring "panoramic" file_lower →
     target_name_of file_lower = "panoramic.jpg") ∧
  (¬ substring "xray" file_lower → ¬ substring "panoramic" file_lower →
     target_name_of file_lower = "intraoral.jpg" ∧
     (any (λ term, contains term file_lower) terms = true →
      substring "intraoral" file_lower)) ∧
  (substring "xray" file_lower → substring "panoramic" file_lower →
     target_name_of file_lower = "xray.jpg" ∧
     target_name_of file_lower ≠ "panoramic.jpg") ∧
  (∀ td root file w,
     lower file = file_lower → selected file = true →
     visit td root file w
     = (copy2 (join root [file]) (join td [target_name_of file_lower]);;
        print ("Copied " +:+ file +:+ " to " +:+ target_name_of file_lower)) w).
Proof.
  unfold target_name_of. split; [|split; [|split; [|split]]].
  - intros H%contains_spec. by rewrite H.
  - intros H1%contains_false H2%contains_spec. by rewrite H1, H2.
  - intros H1%contains_false H2%contains_false. rewrite H1, H2.
    split; [done|]. intros Hany.
    apply any_spec in Hany as (term & Hin & Hc).
    unfold terms in Hin. apply contains_spec.
    repeat (apply elem_of_cons in Hin as [->|Hin]); try congruence.
    by apply elem_of_nil in Hin.
  - intros H%contains_spec _. by rewrite H.
  - intros td root file w <- Hs. by apply visit_selected.
Qed.

(** C3: copies go to fixed names and replace what is there, so after a run
    each slot holds the bytes of the last file of the walk that was selected
    and classified into that slot, and what it held before the run if there
    was no such file.  The files of the download lie outside the target
    directory, and the slot is not a directory. *)
Theorem C3_last_match_wins (e : env) (w w' : world) (p : path) (name : string) :
  dataset_download e "weiweicui/ctooth-dataset" = inr p →
  outside (test_dir_of e) (walk_files (os_walk e p)) →
  isdir w (test_dir_of e ++ [name]) = false →
  download_dataset e w = (w', inr tt) →
  files w' !! (test_dir_of e ++ [name]) =
    match last (List.filter
                  (λ x, selected x.2 && String.eqb (target_name_of (lower x.2)) name)
                  (walk_files (os_walk e p))) with
    | Some (root, file) => files w !! (root ++ [file])
    | None => files w !! (test_dir_of e ++ [name])
    end.
Proof.
  intros Hp Hout Hnd. rewrite download_dataset_eq, Hp.
  destruct (makedirs _ _) as [wm [err|[]]] eqn:Em; [done|].
  apply makedirs_frame in Em as (Hf & _ & _ & Hnew & _). simpl in Hf.
  assert (Hnd' : isdir wm (test_dir_of e ++ [name]) = false).
  { apply isdir_false in Hnd as [Hne Hnd]. apply isdir_false. split; [done|].
    intros [?|[Hpre _]]%Hnew; [done|]. by apply not_prefix_snoc in Hpre. }
  intros H.
  rewrite (copy_all_files _ _ _ _ _ Hout H).
  rewrite (filter_ext _ _ (λ x, writes_to_slot wm _ name x Hnd')), Hf.
  by destruct (last _) as [[root file]|].
Qed.




(** C8, amended: nothing is caught, and nothing is cleaned up.  When the
    download raises, the run raises the same after its first line; when
    [makedirs] raises, the run raises the same and no file has changed; when a
    copy raises, the run raises the same there and the files after it are not
    visited.  The world is then the one the copies before it left, but for the
    path the failing copy was writing: if the copy raised once that path was
    opened, the path holds the bytes written so far, none or some or all of
    the source's, whatever it held, an earlier copy too. *)
Theorem C8_errors_propagate (e : env) (w : world) :
  let td := test_dir_of e in
  (∀ err,
     dataset_download e "weiweicui/ctooth-dataset" = inl err →
     download_dataset e w
     = (World (files w) (dirs w) (stdout w ++ ["Downloading CTooth dataset..."]),
        inl err)) ∧
  (∀ p wm err,
     dataset_download e "weiweicui/ctooth-dataset" = inr p →
     makedirs td (World (files w) (dirs w) (stdout w ++ header p)) = (wm, inl err) →
     download_dataset e w = (wm, inl err) ∧ files wm = files w) ∧
  (∀ p wm before root file after w1 w2 err,
     dataset_download e "weiweicui/ctooth-dataset" = inr p →
     makedirs td (World (files w) (dirs w) (stdout w ++ header p)) = (wm, inr tt) →
     walk_files (os_walk e p) = before ++ (root, file) :: after →
     copy_all td before wm = (w1, inr tt) →
     visit td root file w1 = (w2, inl err) →
     download_dataset e w = (w2, inl err) ∧
     dirs w2 = dirs w1 ∧ stdout w2 = stdout w1 ∧
     (∀ q, q ≠ dest w1 td file → files w2 !! q = files w1 !! q) ∧
     (files w2 !! dest w1 td file = files w1 !! dest w1 td file ∨
      ∃ data n, files w1 !! (root ++ [file]) = Some data ∧
                files w2 !! dest w1 td file = Some (take n data))).
Proof.
  intros td. split; [|split].
  - intros err He. by rewrite download_dataset_eq, He.
  - intros p wm err Hp Em. rewrite download_dataset_eq, Hp. fold td. rewrite Em.
    split; [done|]. by apply makedirs_frame in Em as (Hf & _).
  - intros p wm before root file after w1 w2 err Hp Em Hl Hb Hv.
    rewrite download_dataset_eq, Hp. fold td. rewrite Em, Hl.
    rewrite (copy_all_app _ _ _ _ _ Hb), copy_all_cons, Hv.
    split; [done|].
    pose proof (visit_frame _ _ _ _ _ _ Hv) as (Hd & Hf & _ & Ho).
    split; [done|]. split; [by apply (Ho err)|]. split; [done|].
    apply visit_fail_inv in Hv as [_ [->|(data & n & Hsrc & _ & ->)]]; [by left|].
    right. exists data, n. split; [done|]. simpl. by rewrite lookup_insert_eq.
Qed.

(** C9, amended: a run adds directories only among the target directory and
    its ancestors, and removes none; it changes files only at the three fixed
    names in the target directory, or directly inside one of them when that
    name is a directory.  So a path that is neither an ancestor of the target
    directory nor inside it is as it was: in particular the files of a
    download that lies elsewhere. *)
Theorem C9_frame_amended (e : env) (w : world) :
  let td := test_dir_of e in
  let w' := (download_dataset e w).1 in
  dirs w ⊆ dirs w' ∧
  (∀ q, q ∈ dirs w' → q ∈ dirs w ∨ (q `prefix_of` td ∧ q ≠ [])) ∧
  (∀ q,
     (∀ name, name ∈ ["xray.jpg"; "panoramic.jpg"; "intraoral.jpg"] →
        q ≠ td ++ [name] ∧
        (isdir w' (td ++ [name]) = true → ∀ file, q ≠ td ++ [name; file])) →
     files w' !! q = files w !! q) ∧
  (∀ q, ¬ q `prefix_of` td → ¬ td `prefix_of` q →
     (q ∈ dirs w' ↔ q ∈ dirs w) ∧ files w' !! q = files w !! q).
Proof.
  intros td w'.
  assert (Hcore :
    dirs w ⊆ dirs w' ∧
    (∀ q, q ∈ dirs w' → q ∈ dirs w ∨ (q `prefix_of` td ∧ q ≠ [])) ∧
    (∀ q, (∀ file, dest w' td file ≠ q) → files w' !! q = files w !! q)).
  { unfold w'. rewrite download_dataset_eq. fold td.
    destruct (dataset_download e _) as [err|p]; simpl; [by eauto|].
    destruct (makedirs td _) as [wm rm] eqn:Em.
    apply makedirs_frame in Em as (Hf & _ & Hsub & Hnew & _). simpl in *.
    destruct rm as [err|[]]; simpl.
    - split; [done|]. split; [done|]. intros q _. by rewrite Hf.
    - destruct (copy_all td _ wm) as [w1 r] eqn:Ec. simpl.
      pose proof (copy_all_dirs _ _ _ _ _ Ec) as Hd.
      rewrite Hd. split; [done|]. split; [done|].
      intros q Hq. rewrite <- Hf. apply (copy_all_other _ _ _ _ _ _) with (2 := Ec).
      intros file. rewrite <- (dest_dirs w1 wm) by done. apply Hq. }
  destruct Hcore as (Hsub & Hnew & Hfiles).
  assert (Hslots : ∀ q,
    (∀ name, name ∈ ["xray.jpg"; "panoramic.jpg"; "intraoral.jpg"] →
       q ≠ td ++ [name] ∧
       (isdir w' (td ++ [name]) = true → ∀ file, q ≠ td ++ [name; file])) →
    files w' !! q = files w !! q).
  { intros q Hq. apply Hfiles. intros file Heq.
    destruct (dest_cases w' td file) as (name & Hin & [[Hd _]|[Hd Hdir]]);
      destruct (Hq name Hin) as [Hq1 Hq2].
    - congruence.
    - apply (Hq2 Hdir file). congruence. }
  split; [done|]. split; [done|]. split; [done|].
  intros q Hq1 Hq2. split.
  - split; [|by apply Hsub].
    intros [?|[? _]]%Hnew; done.
  - apply Hslots. intros name _. split.
    + intros ->. apply Hq2. by apply prefix_app_r.
    + intros _ file ->. apply Hq2. by apply prefix_app_r.
Qed.

(** C10: the outcome of a run is decided by the download, the files of the
    walk and the target directory.  Two runs on the same download, from worlds
    with the same directories that agree on the files of the walk, on the
    target directory and on its ancestors, whatever else they hold and
    whatever was printed before, end alike: both return or both raise the
    same, the three slots hold the same bytes, and the same lines are printed
    in the same order. *)
Theorem C10_deterministic (e : env) (u v : world) (p : path) :
  dataset_download e "weiweicui/ctooth-dataset" = inr p →
  let td := test_dir_of e in
  let relevant := λ q,
    td `prefix_of` q ∨ q `prefix_of` td ∨
    ∃ root file, (root, file) ∈ walk_files (os_walk e p) ∧ q = root ++ [file] in
  agree_on relevant u v →
  ∃ u' v' r lines,
    download_dataset e u = (u', r) ∧
    download_dataset e v = (v', r) ∧
    agree_on relevant u' v' ∧
    (∀ name, files u' !! (td ++ [name]) = files v' !! (td ++ [name])) ∧
    stdout u' = stdout u ++ header p ++ lines ∧
    stdout v' = stdout v ++ header p ++ lines.
Proof.
  intros Hp td relevant [Hd Hf]. rewrite !download_dataset_eq, Hp. fold td.
  set (l := walk_files (os_walk e p)).
  destruct (makedirs td (World (files u) _ _)) as [um rm] eqn:Em.
  pose proof (makedirs_frame _ _ _ _ Em) as (Hfu & Hou & _ & _ & Hdu).
  simpl in Hfu, Hou.
  apply (makedirs_rel td _ (World (files v) (dirs v) (stdout v ++ header p)))
    in Em; [|done|].
  2:{ intros q Hq. unfold isfile. simpl. rewrite Hf; [done|]. right. by left. }
  rewrite Em. simpl.
  assert (Hag : agree_on relevant um
                  (World (files v) (dirs um) (stdout v ++ header p))).
  { split; [done|]. intros q Hq. simpl. rewrite Hfu. by apply Hf. }
  assert (Hslot : ∀ a b, agree_on relevant a b →
            ∀ name, files a !! (td ++ [name]) = files b !! (td ++ [name])).
  { intros a b [_ Hab] name. apply Hab. left. by apply prefix_app_r. }
  destruct rm as [err|[]].
  - exists um, (World (files v) (dirs um) (stdout v ++ header p)), (inl err), [].
    split; [done|]. split; [done|]. split; [done|]. split; [by apply Hslot|]. done.
  - destruct (copy_all td l um) as [u' r] eqn:Eu.
    destruct (copy_all_rel relevant td l um _ u' r Hag) as (v' & Ev & Hag' & Hperf);
      [by apply Hdu| |done|].
    { intros root file Hin. right. right. by exists root, file. }
    exists u', v', r,
      (map (λ x, progress_line x.2) (List.filter (λ x, selected x.2) (performed td l um))).
    rewrite (copy_all_stdout _ _ _ _ _ Eu), (copy_all_stdout _ _ _ _ _ Ev), Hperf, Hou.
    simpl. rewrite <- !app_assoc.
    split; [done|]. split; [done|]. split; [done|]. split; [by apply Hslot|]. done.
Qed.

End Claims.

(** ** Runs

    What follows is on the disk on which every copy completes ([reliable]),
    but where another one is named. *)

Lemma C3_last_match_wins_witness :
  files (download_dataset two_env two_world).1
    !! (["repo"; "server"; "test"; "images"] ++ ["xray.jpg"])
  = files two_world !! (["cache"; "ctooth"] ++ ["b_XRAY_panoramic.jpg"]).
Proof.
  apply (C3_last_match_wins two_env two_world _ ["cache"; "ctooth"] "xray.jpg").
  - reflexivity.
  - unfold outside. compute_done.
  - vm_compute. reflexivity.
  - apply run_pair. vm_compute. reflexivity.
Defined.

(** C4: matching does not look at case.  The two tests and the choice of the
    slot read the lowercased name only, so two names that lowercase alike are
    treated alike, and a name like its lowercase; the copy reads the file under
    its own name.  [PANO_Xray_001.JPG] is selected and goes to [xray.jpg]: in
    the run below only the name as spelled exists, and its bytes arrive. *)
Theorem C4_case_insensitive :
  (∀ f g, lower f = lower g →
     selected f = selected g ∧
     target_name_of (lower f) = target_name_of (lower g)) ∧
  (∀ f, selected (lower f) = selected f ∧
        target_name_of (lower (lower f)) = target_name_of (lower f)) ∧
  (∀ td root file w, selected file = true →
     visit td root file w
     = (copy2 (join root [file]) (join td [target_name_of (lower file)]);;
        print ("Copied " +:+ file +:+ " to " +:+ target_name_of (lower file))) w) ∧
  (selected "PANO_Xray_001.JPG" = true ∧
   target_name_of (lower "PANO_Xray_001.JPG") = "xray.jpg" ∧
   let w' := (download_dataset ex_env ex_world).1 in
   files w' !! ["repo"; "server"; "test"; "images"; "xray.jpg"] = Some [Byte.x03] ∧
   files ex_world !! ["cache"; "ctooth"; "dir"; "a"; "PANO_Xray_001.JPG"]
     = Some [Byte.x03] ∧
   files ex_world !! ["cache"; "ctooth"; "dir"; "a"; lower "PANO_Xray_001.JPG"]
     = None).
Proof.
  split; [|split; [|split]].
  - intros f g H. unfold selected. by rewrite H.
  - intros f. unfold selected. by rewrite !lower_idemp.
  - intros td root file w Hs. by apply visit_selected.
  - by vm_compute.
Qed.




(** C8 as stated fails: on [full_disk] the first file of [two_env] is copied
    to the slot [xray.jpg], then the copy of the second raises when the slot
    has been opened, and so emptied; the run raises, and the slot no more
    holds the copy that was completed. *)
Lemma C8_errors_propagate_counterexample :
  ¬ (∀ (D : Disk) (e : env) (w wm w1 w2 : world) (p : path)
       (before after : list (path * string)) (root : path) (file : string)
       (err : exn),
       let td := test_dir_of e in
       dataset_download e "weiweicui/ctooth-dataset" = inr p →
       makedirs td (World (files w) (dirs w) (stdout w ++ header p)) = (wm, inr tt) →
       walk_files (os_walk e p) = before ++ (root, file) :: after →
       copy_all td before wm = (w1, inr tt) →
       visit td root file w1 = (w2, inl err) →
       ∀ name, name ∈ ["xray.jpg"; "panoramic.jpg"; "intraoral.jpg"] →
         files w2 !! (td ++ [name]) = files w1 !! (td ++ [name])).
Proof.
  intros Hall.
  set (td := test_dir_of two_env).
  set (wm := (makedirs td (World (files two_world) (dirs two_world)
                (stdout two_world ++ header ["cache"; "ctooth"]))).1).
  set (w1 := (@copy_all full_disk td [(["cache"; "ctooth"], "a_xray.png")] wm).1).
  set (w2 := (@visit full_disk td ["cache"; "ctooth"] "b_XRAY_panoramic.jpg" w1).1).
  assert (Hslot : files w2 !! (td ++ ["xray.jpg"]) = files w1 !! (td ++ ["xray.jpg"])).
  { apply (Hall full_disk two_env two_world wm w1 w2 ["cache"; "ctooth"]
             [(["cache"; "ctooth"], "a_xray.png")] []
             ["cache"; "ctooth"] "b_XRAY_panoramic.jpg" (OSError 28)).
    - reflexivity.
    - apply run_pair. vm_compute. reflexivity.
    - reflexivity.
    - apply run_pair. vm_compute. reflexivity.
    - apply run_pair. vm_compute. reflexivity.
    - compute_done. }
  revert Hslot. vm_compute. discriminate.
Qed.

(** The same run, through the theorem: the run raises, and the slot holds
    the bytes written so far, none. *)
Lemma C8_errors_propagate_witness :
  (@download_dataset full_disk two_env two_world).2 = inl (OSError 28) ∧
  files (@download_dataset full_disk two_env two_world).1
    !! ["repo"; "server"; "test"; "images"; "xray.jpg"] = Some [].
Proof.
  destruct (@C8_errors_propagate full_disk two_env two_world) as (_ & _ & Hcopy).
  set (td := test_dir_of two_env).
  set (wm := (makedirs td (World (files two_world) (dirs two_world)
                (stdout two_world ++ header ["cache"; "ctooth"]))).1).
  set (w1 := (@copy_all full_disk td [(["cache"; "ctooth"], "a_xray.png")] wm).1).
  set (w2 := (@visit full_disk td ["cache"; "ctooth"] "b_XRAY_panoramic.jpg" w1).1).
  destruct (Hcopy ["cache"; "ctooth"] wm [(["cache"; "ctooth"], "a_xray.png")]
              ["cache"; "ctooth"] "b_XRAY_panoramic.jpg" [] w1 w2 (OSError 28))
    as [Hrun _].
  - reflexivity.
  - apply run_pair. vm_compute. reflexivity.
  - reflexivity.
  - apply run_pair. vm_compute. reflexivity.
  - apply run_pair. vm_compute. reflexivity.
  - rewrite Hrun. split; [reflexivity|]. vm_compute. reflexivity.
Defined.

(** C9 as stated fails: on [ex_world], where [repo/server/test] does not
    exist, the run creates it; it is neither the target directory nor a path
    inside it. *)
Lemma C9_frame_counterexample :
  ¬ (∀ (e : env) (w : world) (q : path),
       let td := test_dir_of e in
       let w' := (download_dataset e w).1 in
       q ≠ td →
       q ∉ [td ++ ["xray.jpg"]; td ++ ["panoramic.jpg"]; td ++ ["intraoral.jpg"]] →
       (q ∈ dirs w' ↔ q ∈ dirs w) ∧ files w' !! q = files w !! q).
Proof.
  intros H.
  destruct (H ex_env ex_world ["repo"; "server"; "test"]) as [[Hd _] _].
  - compute_done.
  - compute_done.
  - assert (Hin : ["repo"; "server"; "test"] ∈ dirs (download_dataset ex_env ex_world).1)
      by compute_done.
    apply Hd in Hin. revert Hin. compute_done.
Qed.

(** Two worlds for one download: [noted_world] has printed before, and holds
    a file of its own elsewhere. *)
Lemma C10_deterministic_witness :
  ∃ u' v' r lines,
    download_dataset ex_env ex_world = (u', r) ∧
    download_dataset ex_env noted_world = (v', r) ∧
    (∀ name, files u' !! (test_dir_of ex_env ++ [name])
             = files v' !! (test_dir_of ex_env ++ [name])) ∧
    stdout u' = stdout ex_world ++ header ["cache"; "ctooth"] ++ lines ∧
    stdout v' = stdout noted_world ++ header ["cache"; "ctooth"] ++ lines.
Proof.
  destruct (C10_deterministic ex_env ex_world noted_world ["cache"; "ctooth"] eq_refl)
    as (u' & v' & r & lines & Hu & Hv & _ & Hs & Hou & Hov).
  - split; [reflexivity|]. intros q Hq.
    change (files noted_world)
      with (<[["home"; "notes.txt"] := [Byte.x2a]]> (files ex_world)).
    symmetry. apply lookup_insert_ne. intros <-.
    destruct Hq as [Hq|[Hq|(root & file & Hin & Hq)]].
    + revert Hq. compute_done.
    + revert Hq. compute_done.
    + apply list_elem_of_In in Hin. vm_compute in Hin.
      destruct Hin as [Hin|[Hin|[Hin|[Hin|[Hin|[]]]]]];
        injection Hin as <- <-; discriminate Hq.
  - exists u', v', r, lines.
    split; [exact Hu|]. split; [exact Hv|]. split; [exact Hs|].
    split; [exact Hou | exact Hov].
Defined.

(** ** More about the script *)

Section Extras.

Context {D : Disk}.

Lemma lower_app (a b : string) : lower (a +:+ b) = lower a +:+ lower b.
Proof. induction a as [|c a IH]; simpl; [done | by rewrite IH]. Qed.

Lemma string_app_assoc (a b c : string) : (a +:+ b) +:+ c = a +:+ b +:+ c.
Proof.
  induction a as [|x a IH]; [done|].
  change (String x ((a +:+ b) +:+ c) = String x (a +:+ b +:+ c)). by rewrite IH.
Qed.

Lemma substring_embed (needle pre hay post : string) :
  substring needle hay → substring needle (pre +:+ hay +:+ post).
Proof.
  intros (a & b & ->). exists (pre +:+ a), (b +:+ post).
  by rewrite !string_app_assoc.
Qed.

(** X2: a run removes no file, and changes no file outside the target
    directory, however it ends. *)
Theorem X2_files_kept (e : env) (w : world) (q : path) :
  let w' := (download_dataset e w).1 in
  (is_Some (files w !! q) → is_Some (files w' !! q)) ∧
  (¬ test_dir_of e `prefix_of` q → files w' !! q = files w !! q).
Proof.
  intros w'. unfold w'. rewrite download_dataset_eq.
  destruct (dataset_download e _) as [err|p]; [done|].
  destruct (makedirs _ _) as [wm [err|[]]] eqn:Em;
    apply makedirs_frame in Em as (Hf & _); simpl in Hf.
  - simpl. by rewrite Hf.
  - destruct (copy_all _ _ wm) as [w1 r1] eqn:Ec. simpl. rewrite <- Hf. split.
    + by apply (copy_all_keeps _ _ _ _ _ _ Ec).
    + intros Hq. by apply (copy_all_outside _ _ _ _ _ _ Hq Ec).
Qed.

(** X3: a run that returns has read every selected file of the walk: each was
    a regular file when the run began, and afterwards the slot it is
    classified into exists (unless a directory has its name).  The download
    lies outside the target directory. *)
Theorem X3_selected_files_read (e : env) (w w' : world) (p root : path)
    (file : string) :
  dataset_download e "weiweicui/ctooth-dataset" = inr p →
  outside (test_dir_of e) (walk_files (os_walk e p)) →
  download_dataset e w = (w', inr tt) →
  (root, file) ∈ walk_files (os_walk e p) →
  selected file = true →
  is_Some (files w !! (root ++ [file])) ∧
  (isdir w (test_dir_of e ++ [target_name_of (lower file)]) = false →
   is_Some (files w' !! (test_dir_of e ++ [target_name_of (lower file)]))).
Proof.
  intros Hp Hout. rewrite download_dataset_eq, Hp.
  destruct (makedirs _ _) as [wm [err|[]]] eqn:Em; [done|].
  apply makedirs_frame in Em as (Hf & _ & _ & Hnew & _). simpl in Hf.
  intros H Hin Hs. rewrite <- !Hf. split.
  - by apply (copy_all_sources _ _ _ _ _ _ Hout H).
  - intros Hnd.
    assert (Hnd' : isdir wm (test_dir_of e ++ [target_name_of (lower file)]) = false).
    { apply isdir_false in Hnd as [Hne Hnd]. apply isdir_false. split; [done|].
      intros [?|[Hpre _]]%Hnew; [done|]. by apply not_prefix_snoc in Hpre. }
    rewrite (copy_all_files _ _ _ _ _ Hout H).
    rewrite (filter_ext _ _ (λ x, writes_to_slot wm _ _ x Hnd')).
    destruct (last _) as [[r0 f0]|] eqn:El.
    + apply last_Some_elem_of, list_elem_of_In, filter_In in El as [El Hc].
      apply andb_true_iff in Hc as [Hc _]. apply list_elem_of_In in El.
      by apply (copy_all_sources _ _ _ _ _ _ Hout H).
    + apply last_None in El.
      assert (Hx : (root, file) ∈ @nil (path * string)); [|by apply elem_of_nil in Hx].
      rewrite <- El. apply list_elem_of_In, filter_In. split.
      * by apply list_elem_of_In.
      * simpl. rewrite Hs. simpl. by apply String.eqb_eq.
Qed.

(** X4: when a run raises in a copy, the walk splits at the file whose visit
    raised: the files before it have been copied, those after it are never
    visited.  A slot other than the one the failing copy was writing holds
    the bytes of the last file before the failing one that was classified
    into it, and what it held before the run if there was none; the slot the
    failing copy was writing holds the same, or the first bytes of the failing
    file.  The download lies outside the target directory, [makedirs]
    returned, and the slot is not a directory. *)
Theorem X4_last_match_before_failure (e : env) (w w' : world) (p : path)
    (err : exn) (name : string) :
  let td := test_dir_of e in
  let wm := (makedirs td (World (files w) (dirs w) (stdout w ++ header p))).1 in
  dataset_download e "weiweicui/ctooth-dataset" = inr p →
  outside td (walk_files (os_walk e p)) →
  isdir w (td ++ [name]) = false →
  (makedirs td (World (files w) (dirs w) (stdout w ++ header p))).2 = inr tt →
  download_dataset e w = (w', inl err) →
  ∃ before root file after w1,
    walk_files (os_walk e p) = before ++ (root, file) :: after ∧
    copy_all td before wm = (w1, inr tt) ∧
    visit td root file w1 = (w', inl err) ∧
    let kept :=
      match last (List.filter
                    (λ x, selected x.2 && String.eqb (target_name_of (lower x.2)) name)
                    before) with
      | Some (r0, f0) => files w !! (r0 ++ [f0])
      | None => files w !! (td ++ [name])
      end in
    (target_name_of (lower file) ≠ name → files w' !! (td ++ [name]) = kept) ∧
    (target_name_of (lower file) = name →
     files w' !! (td ++ [name]) = kept ∨
     ∃ data n, files w !! (root ++ [file]) = Some data ∧
               files w' !! (td ++ [name]) = Some (take n data)).
Proof.
  intros td wm Hp Hout Hnd Hm. rewrite download_dataset_eq, Hp. fold td.
  unfold wm. clear wm.
  destruct (makedirs td _) as [wm rm] eqn:Em. simpl in Hm. subst rm. simpl.
  apply makedirs_frame in Em as (Hf & _ & _ & Hnew & _). simpl in Hf.
  assert (Hnd' : isdir wm (td ++ [name]) = false).
  { apply isdir_false in Hnd as [Hne Hnd]. apply isdir_false. split; [done|].
    intros [?|[Hpre _]]%Hnew; [done|]. by apply not_prefix_snoc in Hpre. }
  intros Hrun.
  pose proof (copy_all_fail _ _ _ _ _ Hrun) as (root & file & rest & w1 & Hl & Hb & Hv).
  set (before := performed td (walk_files (os_walk e p)) wm) in *.
  assert (Hin : (root, file) ∈ walk_files (os_walk e p)).
  { rewrite Hl. apply elem_of_app. right. by left. }
  assert (Hob : outside td before).
  { unfold outside in Hout. rewrite Hl in Hout. by apply Forall_app in Hout as [? _]. }
  exists before, root, file, rest, w1. split; [done|]. split; [done|]. split; [done|].
  pose proof (copy_all_dirs _ _ _ _ _ Hb) as Hd1.
  assert (Hkept : files w1 !! (td ++ [name]) =
    match last (List.filter
                  (λ x, selected x.2 && String.eqb (target_name_of (lower x.2)) name)
                  before) with
    | Some (r0, f0) => files w !! (r0 ++ [f0])
    | None => files w !! (td ++ [name])
    end).
  { rewrite (copy_all_files _ _ _ _ _ Hob Hb).
    rewrite (filter_ext _ _ (λ x, writes_to_slot wm _ name x Hnd')), Hf.
    by destruct (last _) as [[r0 f0]|]. }
  assert (Hds : dest w1 td file = td ++ [name] ↔ target_name_of (lower file) = name).
  { apply dest_slot. unfold isdir in *. by rewrite Hd1. }
  pose proof (visit_frame _ _ _ _ _ _ Hv) as (_ & Hfr & _).
  split.
  - intros Hne. rewrite <- Hkept. apply Hfr. intros Heq. by apply Hne, Hds.
  - intros Heq. apply Hds in Heq.
    apply visit_fail_inv in Hv as [_ [->|(data & n & Hsrc & _ & ->)]]; [by left|].
    right. exists data, n. split.
    + rewrite <- Hf, <- Hsrc. symmetry.
      apply (copy_all_outside td before wm w1 (inr tt)); [|done].
      by apply (outside_elem_of td (walk_files (os_walk e p))).
    + simpl. by rewrite <- Heq, lookup_insert_eq.
Qed.

(** X6: the tests look for the markers anywhere in the name, so a selected
    name stays selected inside any longer name, whatever is put before or
    after it; and a name that goes to [xray.jpg] still goes there. *)
Theorem X6_selected_inside_longer_name (pre file post : string) :
  selected file = true →
  selected (pre +:+ file +:+ post) = true ∧
  (target_name_of (lower file) = "xray.jpg" →
   target_name_of (lower (pre +:+ file +:+ post)) = "xray.jpg").
Proof.
  intros Hs. split.
  - apply selected_spec in Hs as [(ext & He & Hse) (term & Ht & Hst)].
    apply selected_spec. rewrite !lower_app.
    split; [exists ext | exists term]; (split; [done|]); by apply substring_embed.
  - unfold target_name_of.
    destruct (contains "xray" (lower file)) eqn:Hx.
    + intros _. apply contains_spec in Hx.
      rewrite !lower_app.
      apply (substring_embed _ (lower pre) _ (lower post)), contains_spec in Hx.
      by rewrite Hx.
    + by destruct (contains "panoramic" (lower file)).
Qed.

(** X7: the walk matters only through the selected files, each with its
    directory, in their order: the directory lists of the triples, the
    directories without files and the files that are not selected have no
    effect on a run. *)
Theorem X7_only_selected_files_matter (e1 e2 : env) (w : world) (p : path) :
  script_file e1 = script_file e2 →
  dataset_download e1 "weiweicui/ctooth-dataset" = inr p →
  dataset_download e2 "weiweicui/ctooth-dataset" = inr p →
  List.filter (λ x, selected x.2) (walk_files (os_walk e1 p))
  = List.filter (λ x, selected x.2) (walk_files (os_walk e2 p)) →
  download_dataset e1 w = download_dataset e2 w.
Proof.
  intros Hs H1 H2 Hl. rewrite !download_dataset_eq, H1, H2.
  unfold test_dir_of. rewrite Hs.
  destruct (makedirs _ _) as [wm [err|[]]]; [done|].
  rewrite copy_all_filter, Hl. symmetry. apply copy_all_filter.
Qed.

(** X9: the three target names are themselves names the script selects, each
    for its own slot.  So when the walk comes to the target directory and
    meets a slot file written earlier, the copy is of the file onto itself:
    [copy2] raises [SameFileError] and nothing changes. *)
Theorem X9_slot_file_met_in_walk (td : path) (name : string) (w : world) :
  name ∈ ["xray.jpg"; "panoramic.jpg"; "intraoral.jpg"] →
  is_Some (files w !! (td ++ [name])) →
  isdir w (td ++ [name]) = false →
  selected name = true ∧ target_name_of (lower name) = name ∧
  visit td td name w = (w, inl SameFileError).
Proof.
  intros Hin Hf Hnd.
  assert (Hsel : selected name = true ∧ target_name_of (lower name) = name).
  { repeat (apply elem_of_cons in Hin as [->|Hin]); [by vm_compute..|].
    by apply elem_of_nil in Hin. }
  destruct Hsel as [Hs Ht]. split; [done|]. split; [done|].
  rewrite visit_eq, Hs. unfold dest, join. rewrite Ht, Hnd.
  unfold mbind, M_bind, copyfile, path_exists.
  rewrite bool_decide_eq_true_2 by done.
  apply isfile_true in Hf. by rewrite Hf, orb_true_r.
Qed.

Lemma visit_with_file (td root : path) (file : string) (w w1 : world)
    (r : exn + unit) (q : path) (data : list Byte.byte) :
  ¬ td `prefix_of` q →
  (selected file = true → q ≠ root ++ [file]) →
  visit td root file w = (w1, r) →
  visit td root file (with_file q data w) = (with_file q data w1, r).
Proof.
  intros Hq Hsrc. rewrite !visit_eq.
  destruct (selected file) eqn:Hs; [|by intros [= <- <-]].
  specialize (Hsrc eq_refl).
  assert (Hdst : dest w td file ≠ q).
  { intros <-. apply Hq, dest_prefix. }
  assert (Hpar : dirname (dest w td file) ≠ q).
  { intros <-. apply Hq. destruct (dest_cases w td file) as (n & _ & [[-> _]|[-> _]]).
    - by rewrite dirname_snoc.
    - change (td ++ [n; file]) with (td ++ [n] ++ [file]).
      rewrite app_assoc, dirname_snoc. by apply prefix_app_r. }
  rewrite (dest_dirs (with_file q data w) w) by done.
  unfold mbind, M_bind, copyfile, path_exists, isfile, isdir, with_file, print.
  simpl. rewrite !lookup_insert_ne by done.
  intros Hv. repeat case_match; simplify_eq; try done.
  all: simpl; by rewrite insert_insert_ne.
Qed.

Lemma copy_all_with_file (td : path) (l : list (path * string)) (w w1 : world)
    (r : exn + unit) (q : path) (data : list Byte.byte) :
  ¬ td `prefix_of` q →
  (∀ root file, (root, file) ∈ l → selected file = true → q ≠ root ++ [file]) →
  copy_all td l w = (w1, r) →
  copy_all td l (with_file q data w) = (with_file q data w1, r).
Proof.
  intros Hq. revert w. induction l as [|[root file] l IH]; intros w Hl.
  - by intros [= <- <-].
  - rewrite !copy_all_cons.
    destruct (visit td root file w) as [w2 r2] eqn:E.
    rewrite (visit_with_file _ _ _ _ _ _ _ data Hq (Hl root file ltac:(by left)) E).
    destruct r2 as [err|[]]; [by intros [= <- <-]|].
    apply IH. intros r0 f0 H0. apply Hl. by right.
Qed.

(** X11: the script reads and writes nothing outside the download and the
    way to the target directory.  A file anywhere else (not in the target
    directory nor above it, not in the downloaded tree nor above it) does not
    change a run: with the file put in the world first, the run ends as
    without it, the file still there.  The walk lists files of the downloaded
    tree. *)
Theorem X11_other_files_do_not_matter (e : env) (w : world) (p q : path)
    (data : list Byte.byte) :
  dataset_download e "weiweicui/ctooth-dataset" = inr p →
  Forall (λ x, p `prefix_of` x.1) (walk_files (os_walk e p)) →
  ¬ test_dir_of e `prefix_of` q →
  ¬ q `prefix_of` test_dir_of e →
  ¬ p `prefix_of` q →
  ¬ q `prefix_of` p →
  download_dataset e (with_file q data w)
  = (with_file q data (download_dataset e w).1, (download_dataset e w).2).
Proof.
  intros Hp Hwalk Hq1 Hq2 Hq3 _.
  assert (Hl : ∀ root file, (root, file) ∈ walk_files (os_walk e p) →
                 selected file = true → q ≠ root ++ [file]).
  { intros root file Hin _ ->. apply Hq3.
    apply (proj1 (Forall_forall _ _) Hwalk) in Hin. simpl in Hin.
    by apply prefix_app_r. }
  rewrite !download_dataset_eq, Hp.
  destruct (makedirs (test_dir_of e) (World (files w) _ _)) as [wm rm] eqn:Em.
  pose proof (makedirs_frame _ _ _ _ Em) as (Hf & Ho & _). simpl in Hf, Ho.
  apply (makedirs_rel _ _
           (World (files (with_file q data w)) (dirs (with_file q data w))
                  (stdout (with_file q data w) ++ header p))) in Em; [|done|].
  2:{ intros x Hx. unfold isfile, with_file. simpl.
      rewrite lookup_insert_ne; [done|]. by intros <-. }
  rewrite Em. simpl.
  replace (World (<[q:=data]> (files w)) (dirs wm) (stdout w ++ header p))
    with (with_file q data wm).
  2:{ unfold with_file. by rewrite Hf, Ho. }
  destruct rm as [err|[]]; [done|].
  destruct (copy_all _ _ wm) as [w1 r1] eqn:Ec. simpl.
  by apply copy_all_with_file.
Qed.

End Extras.

(** ** More runs

    Again on the disk on which every copy completes. *)

Lemma X3_selected_files_read_witness :
  is_Some (files ex_world !! (["cache"; "ctooth"; "dir"; "a"] ++ ["PANO_Xray_001.JPG"])) ∧
  (isdir ex_world (test_dir_of ex_env ++ [target_name_of (lower "PANO_Xray_001.JPG")])
   = false →
   is_Some (files (download_dataset ex_env ex_world).1
              !! (test_dir_of ex_env ++ [target_name_of (lower "PANO_Xray_001.JPG")]))).
Proof.
  apply (X3_selected_files_read ex_env ex_world _ ["cache"; "ctooth"]).
  - reflexivity.
  - unfold outside. compute_done.
  - apply run_pair. vm_compute. reflexivity.
  - compute_done.
  - vm_compute. reflexivity.
Defined.

Lemma X4_last_match_before_failure_witness :
  ∃ before root file after w1,
    walk_files (os_walk broken_env ["cache"; "ctooth"])
      = before ++ (root, file) :: after ∧
    copy_all (test_dir_of broken_env) before
      (makedirs (test_dir_of broken_env)
         (World (files broken_world) (dirs broken_world)
                (stdout broken_world ++ header ["cache"; "ctooth"]))).1
      = (w1, inr tt) ∧
    visit (test_dir_of broken_env) root file w1
      = ((download_dataset broken_env broken_world).1, inl FileNotFoundError) ∧
    let kept :=
      match last (List.filter
                    (λ x, selected x.2 &&
                          String.eqb (target_name_of (lower x.2)) "xray.jpg")
                    before) with
      | Some (r0, f0) => files broken_world !! (r0 ++ [f0])
      | None => files broken_world !! (test_dir_of broken_env ++ ["xray.jpg"])
      end in
    (target_name_of (lower file) ≠ "xray.jpg" →
     files (download_dataset broken_env broken_world).1
       !! (test_dir_of broken_env ++ ["xray.jpg"]) = kept) ∧
    (target_name_of (lower file) = "xray.jpg" →
     files (download_dataset broken_env broken_world).1
       !! (test_dir_of broken_env ++ ["xray.jpg"]) = kept ∨
     ∃ data n, files broken_world !! (root ++ [file]) = Some data ∧
               files (download_dataset broken_env broken_world).1
                 !! (test_dir_of broken_env ++ ["xray.jpg"]) = Some (take n data)).
Proof.
  apply (X4_last_match_before_failure broken_env broken_world _ ["cache"; "ctooth"]
           FileNotFoundError "xray.jpg").
  - reflexivity.
  - unfold outside. compute_done.
  - vm_compute. reflexivity.
  - vm_compute. reflexivity.
  - apply run_pair. vm_compute. reflexivity.
Defined.

Lemma X6_selected_inside_longer_name_witness :
  selected ("old_" +:+ "Xray.PNG" +:+ ".bak") = true ∧
  (target_name_of (lower "Xray.PNG") = "xray.jpg" →
   target_name_of (lower ("old_" +:+ "Xray.PNG" +:+ ".bak")) = "xray.jpg").
Proof.
  apply (X6_selected_inside_longer_name "old_" "Xray.PNG" ".bak").
  vm_compute. reflexivity.
Defined.

Lemma X7_only_selected_files_matter_witness :
  download_dataset ex_env ex_world = download_dataset ex_env_other_walk ex_world.
Proof.
  apply (X7_only_selected_files_matter ex_env ex_env_other_walk ex_world
           ["cache"; "ctooth"]).
  - reflexivity.
  - reflexivity.
  - reflexivity.
  - vm_compute. reflexivity.
Defined.

(** X8: when the slot is an existing directory, the file is not renamed: its
    bytes go inside that directory under the file's own name, the slot path
    holds no file for it, and the line printed still names the slot. *)
Theorem X8_slot_is_a_directory (td root : path) (file : string) (w : world)
    (data : list Byte.byte) :
  let slot := td ++ [target_name_of (lower file)] in
  selected file = true →
  isdir w slot = true →
  files w !! (root ++ [file]) = Some data →
  root ++ [file] ≠ slot ++ [file] →
  isdir w (slot ++ [file]) = false →
  visit td root file w
  = (World (<[slot ++ [file] := data]> (files w)) (dirs w)
           (stdout w ++ ["Copied " +:+ file +:+ " to " +:+ target_name_of (lower file)]),
     inr tt).
Proof.
  intros slot Hs Hd Hsrc Hne Hnd. rewrite visit_eq, Hs.
  unfold dest, join. fold slot. rewrite Hd.
  unfold mbind, M_bind, copyfile, print.
  rewrite bool_decide_eq_false_2 by done. simpl.
  by rewrite Hsrc, Hnd, dirname_snoc, Hd.
Qed.

Lemma X8_slot_is_a_directory_witness :
  visit ["repo"; "server"; "test"; "images"] ["cache"; "ctooth"] "a_xray.png"
        dir_slot_world
  = (World (<[["repo"; "server"; "test"; "images"; "xray.jpg"] ++ ["a_xray.png"]
              := [Byte.x0a]]> (files dir_slot_world))
           (dirs dir_slot_world)
           (stdout dir_slot_world ++ ["Copied a_xray.png to xray.jpg"]),
     inr tt).
Proof.
  apply (X8_slot_is_a_directory ["repo"; "server"; "test"; "images"]
           ["cache"; "ctooth"] "a_xray.png" dir_slot_world [Byte.x0a]).
  - vm_compute. reflexivity.
  - vm_compute. reflexivity.
  - vm_compute. reflexivity.
  - compute_done.
  - vm_compute. reflexivity.
Defined.

Lemma X9_slot_file_met_in_walk_witness :
  selected "xray.jpg" = true ∧ target_name_of (lower "xray.jpg") = "xray.jpg" ∧
  visit ["repo"; "server"; "test"; "images"] ["repo"; "server"; "test"; "images"]
        "xray.jpg" two_world
  = (two_world, inl SameFileError).
Proof.
  apply (X9_slot_file_met_in_walk ["repo"; "server"; "test"; "images"] "xray.jpg"
           two_world).
  - compute_done.
  - vm_compute. eexists. reflexivity.
  - vm_compute. reflexivity.
Defined.

Lemma X11_other_files_do_not_matter_witness :
  download_dataset ex_env (with_file ["home"; "notes.txt"] [Byte.x2a] ex_world)
  = (with_file ["home"; "notes.txt"] [Byte.x2a] (download_dataset ex_env ex_world).1,
     (download_dataset ex_env ex_world).2).
Proof.
  apply (X11_other_files_do_not_matter ex_env ex_world ["cache"; "ctooth"]).
  - reflexivity.
  - compute_done.
  - compute_done.
  - compute_done.
  - compute_done.
  - compute_done.
Defined.

